(** * DocKernel: pagination, preflight and export helpers

    A shallow embedding of the text-processing code of the DocKernel
    layout tool, together with the properties stated about it.

    JavaScript strings are sequences of UTF-16 code units; they are
    modelled as lists of integers, one per code unit, so that [length]
    is the [length] property of the string. *)

From Stdlib Require Import String Ascii ZArith List Lia Bool.
From Stdlib Require DecimalString.
From Stdlib Require QArith Qround Qminmax.
Import ListNotations.
Open Scope Z_scope.

(* ================================================================= *)
(** ** JavaScript strings *)

Module JsString.

Definition jsstring := list Z.

(** An ASCII literal as a JavaScript string. *)
Definition lit (s : string) : jsstring :=
  map (fun a => Z.of_N (N_of_ascii a)) (list_ascii_of_string s).

Definition NL : Z := 10.

(** [WhiteSpace] and [LineTerminator] code units, the ones that
    [String.prototype.trim] strips. *)
Definition is_ws (c : Z) : bool :=
  (c =? 9) || (c =? 10) || (c =? 11) || (c =? 12) || (c =? 13)
  || (c =? 32) || (c =? 160) || (c =? 5760)
  || ((8192 <=? c) && (c <=? 8202))
  || (c =? 8232) || (c =? 8233) || (c =? 8239) || (c =? 8287)
  || (c =? 12288) || (c =? 65279).

Fixpoint trimStart (s : jsstring) : jsstring :=
  match s with
  | [] => []
  | c :: r => if is_ws c then trimStart r else s
  end.

(** Drop the longest suffix whose characters all satisfy [p]. *)
Fixpoint strip_end (p : Z -> bool) (s : jsstring) : jsstring :=
  match s with
  | [] => []
  | c :: r =>
      match strip_end p r with
      | [] => if p c then [] else [c]
      | r' => c :: r'
      end
  end.

Definition trimEnd (s : jsstring) : jsstring := strip_end is_ws s.

(** [s.trim()] *)
Definition trim (s : jsstring) : jsstring := trimEnd (trimStart s).

Definition is_empty (s : jsstring) : bool :=
  match s with [] => true | _ => false end.

(** [parts.join(sep)] *)
Fixpoint join (sep : jsstring) (parts : list jsstring) : jsstring :=
  match parts with
  | [] => []
  | [p] => p
  | p :: rest => p ++ sep ++ join sep rest
  end.

(** [s.startsWith(p)] *)
Fixpoint starts_with (p s : jsstring) : bool :=
  match p, s with
  | [], _ => true
  | _ :: _, [] => false
  | a :: p', b :: s' => (a =? b) && starts_with p' s'
  end.

(** [s.includes(p)] *)
Fixpoint includes (p s : jsstring) : bool :=
  starts_with p s ||
  match s with
  | [] => false
  | _ :: r => includes p r
  end.

(** [s.replace(/c/g, rep)] for a pattern that is the single character
    [c] and a replacement text without [$] patterns. *)
Definition replace_char (c : Z) (rep : jsstring) (s : jsstring) : jsstring :=
  flat_map (fun x => if x =? c then rep else [x]) s.

End JsString.
Import JsString.

(* ================================================================= *)
(** ** src/app/lib/markdown.ts *)

Module Markdown.

(** The fragment of regular expressions that the URL filter uses. *)
Inductive regex : Type :=
  | Str (p : jsstring)          (* a run of literal characters *)
  | Seq (a b : regex)           (* ab *)
  | Alt (a b : regex)           (* a|b *)
  | Opt (a : regex).            (* a? *)

(** [Canonicalize] of a case-insensitive, non-Unicode pattern, as far as
    a comparison with an ASCII pattern character can tell: ASCII letters
    are upper-cased, and no code unit above 127 canonicalizes to an ASCII
    one. *)
Definition canon (c : Z) : Z :=
  if (97 <=? c) && (c <=? 122) then c - 32 else c.

(** The rest of [s] after the literal [p], compared case-insensitively. *)
Fixpoint strip_ci (p s : jsstring) : option jsstring :=
  match p, s with
  | [], _ => Some s
  | _ :: _, [] => None
  | a :: p', b :: s' => if canon a =? canon b then strip_ci p' s' else None
  end.

(** Every way in which [r], with flag [i], matches a prefix of [s]: the
    list of what remains of [s] after the match. *)
Fixpoint rmatch (r : regex) (s : jsstring) : list jsstring :=
  match r with
  | Str p => match strip_ci p s with Some rest => [rest] | None => [] end
  | Seq a b => flat_map (rmatch b) (rmatch a s)
  | Alt a b => rmatch a s ++ rmatch b s
  | Opt a => rmatch a s ++ [s]
  end.

(** [/^(r)/i.test(s)] *)
Definition test_anchored (r : regex) (s : jsstring) : bool :=
  match rmatch r s with [] => false | _ => true end.

(** [(blob:|data:|https?:|mailto:|tel:|\/|\.\/|\.\.\/|#)] *)
Definition url_pattern : regex :=
  Alt (Str (lit "blob:"))
  (Alt (Str (lit "data:"))
  (Alt (Seq (Str (lit "http")) (Seq (Opt (Str (lit "s"))) (Str (lit ":"))))
  (Alt (Str (lit "mailto:"))
  (Alt (Str (lit "tel:"))
  (Alt (Str (lit "/"))
  (Alt (Str (lit "./"))
  (Alt (Str (lit "../"))
       (Str (lit "#"))))))))).

(** [markdownUrlTransform]; a null or undefined [url] is [None]. *)
Definition markdownUrlTransform (url : option jsstring) : jsstring :=
  let trimmed := trim (match url with Some u => u | None => [] end) in
  if is_empty trimmed then []
  else if test_anchored url_pattern trimmed then trimmed
  else [].

(** The reading of the claim: the admitted prefixes, and "begins with,
    case-insensitively". *)
Definition allowed_prefixes : list jsstring :=
  [lit "blob:"; lit "data:"; lit "http:"; lit "https:"; lit "mailto:";
   lit "tel:"; lit "/"; lit "./"; lit "../"; lit "#"].

Definition begins_ci (s p : jsstring) : bool :=
  match strip_ci p s with Some _ => true | None => false end.

End Markdown.

(* ================================================================= *)
(** ** Export helpers, src/app/components/SettingsPanel.tsx *)

Module ExportHelpers.

(** [escapeHtml] *)
Definition escapeHtml (value : jsstring) : jsstring :=
  replace_char 39 (lit "&#39;")
    (replace_char 34 (lit "&quot;")
      (replace_char 62 (lit "&gt;")
        (replace_char 60 (lit "&lt;")
          (replace_char 38 (lit "&amp;") value)))).

(** The four characters that the claim excludes: [<], [>], the double
    quote and the single quote. *)
Definition is_markup_char (c : Z) : bool :=
  (c =? 60) || (c =? 62) || (c =? 34) || (c =? 39).

(** [escapedBody] of [openPdfPrintPreview]: the text put between the
    tags of the content block. *)
Definition escapedBody (content : jsstring) : jsstring :=
  let source := trim content in
  let fallbackBody := lit "No content available." in
  let bodyText := if negb (is_empty source) then source else fallbackBody in
  escapeHtml bodyText.

End ExportHelpers.

(* ================================================================= *)
(** ** The share-URL codec, src/app/components/SettingsPanel.tsx *)

Module ShareCodec.

(** *** Platform functions

    [TextEncoder], [TextDecoder], [btoa] and [atob] belong to the
    browser; they are modelled after the Encoding and Infra standards. *)

Definition is_high (c : Z) : bool := (0xD800 <=? c) && (c <=? 0xDBFF).
Definition is_low (c : Z) : bool := (0xDC00 <=? c) && (c <=? 0xDFFF).

(** Conversion of a string to scalar values: a surrogate pair is one
    code point, an unpaired surrogate becomes U+FFFD. *)
Fixpoint to_scalar_values (s : jsstring) : list Z :=
  match s with
  | [] => []
  | c :: r =>
      if is_high c then
        match r with
        | d :: r' =>
            if is_low d
            then (0x10000 + (c - 0xD800) * 1024 + (d - 0xDC00)) :: to_scalar_values r'
            else 0xFFFD :: to_scalar_values r
        | [] => [0xFFFD]
        end
      else if is_low c then 0xFFFD :: to_scalar_values r
      else c :: to_scalar_values r
  end.

(** The UTF-16 code units of one code point. *)
Definition utf16_units (cp : Z) : jsstring :=
  if cp <? 0x10000 then [cp]
  else [0xD800 + (cp - 0x10000) / 1024; 0xDC00 + (cp - 0x10000) mod 1024].

(** The UTF-8 bytes of one scalar value. *)
Definition utf8_bytes (cp : Z) : list Z :=
  if cp <? 0x80 then [cp]
  else if cp <? 0x800 then [0xC0 + cp / 64; 0x80 + cp mod 64]
  else if cp <? 0x10000 then
    [0xE0 + cp / 4096; 0x80 + (cp / 64) mod 64; 0x80 + cp mod 64]
  else
    [0xF0 + cp / 262144; 0x80 + (cp / 4096) mod 64;
     0x80 + (cp / 64) mod 64; 0x80 + cp mod 64].

(** [new TextEncoder().encode(value)] *)
Definition TextEncoder_encode (value : jsstring) : list Z :=
  flat_map utf8_bytes (to_scalar_values value).

(** The state of the UTF-8 decoder between two bytes of a sequence: the
    code point so far, the number of bytes still needed, and the bounds
    on the next byte. *)
Record pending : Type :=
  { code_point : Z; bytes_left : nat; lower : Z; upper : Z }.

(** A byte met with no sequence pending: what is emitted, and the
    sequence it starts. *)
Definition utf8_lead (b : Z) : list Z * option pending :=
  if (0 <=? b) && (b <=? 0x7F) then ([b], None)
  else if (0xC2 <=? b) && (b <=? 0xDF) then
    ([], Some {| code_point := b mod 32; bytes_left := 1;
                 lower := 0x80; upper := 0xBF |})
  else if (0xE0 <=? b) && (b <=? 0xEF) then
    ([], Some {| code_point := b mod 16; bytes_left := 2;
                 lower := if b =? 0xE0 then 0xA0 else 0x80;
                 upper := if b =? 0xED then 0x9F else 0xBF |})
  else if (0xF0 <=? b) && (b <=? 0xF4) then
    ([], Some {| code_point := b mod 8; bytes_left := 3;
                 lower := if b =? 0xF0 then 0x90 else 0x80;
                 upper := if b =? 0xF4 then 0x8F else 0xBF |})
  else ([0xFFFD], None).

(** The UTF-8 decoder with replacement of errors. A byte outside the
    bounds ends the pending sequence with U+FFFD and is then read again
    as a lead byte. *)
Fixpoint utf8_decode (st : option pending) (bs : list Z) : list Z :=
  match bs with
  | [] => match st with None => [] | Some _ => [0xFFFD] end
  | b :: r =>
      match st with
      | None =>
          let '(out, st') := utf8_lead b in out ++ utf8_decode st' r
      | Some p =>
          if (lower p <=? b) && (b <=? upper p) then
            let cp := code_point p * 64 + b mod 64 in
            match bytes_left p with
            | S (S n) =>
                utf8_decode (Some {| code_point := cp; bytes_left := S n;
                                     lower := 0x80; upper := 0xBF |}) r
            | _ => cp :: utf8_decode None r
            end
          else
            let '(out, st') := utf8_lead b in
            0xFFFD :: out ++ utf8_decode st' r
      end
  end.

(** [new TextDecoder().decode(bytes)]: a leading byte order mark is
    dropped, the rest is decoded as UTF-8. *)
Definition TextDecoder_decode (bytes : list Z) : jsstring :=
  let bytes :=
    match bytes with
    | b1 :: b2 :: b3 :: r =>
        if (b1 =? 0xEF) && (b2 =? 0xBB) && (b3 =? 0xBF) then r else bytes
    | _ => bytes
    end in
  flat_map utf16_units (utf8_decode None bytes).

(** The base64 alphabet. *)
Definition b64_char (n : Z) : Z :=
  if n <? 26 then 65 + n
  else if n <? 52 then 97 + (n - 26)
  else if n <? 62 then 48 + (n - 52)
  else if n =? 62 then 43
  else 47.

Definition b64_value (c : Z) : option Z :=
  if (65 <=? c) && (c <=? 90) then Some (c - 65)
  else if (97 <=? c) && (c <=? 122) then Some (c - 97 + 26)
  else if (48 <=? c) && (c <=? 57) then Some (c - 48 + 52)
  else if c =? 43 then Some 62
  else if c =? 47 then Some 63
  else None.

(** [btoa(binary)] on a binary string, a string of code units below 256
    (on any other string [btoa] throws; [encodeBase64Url] builds its
    argument from bytes). *)
Fixpoint btoa (binary : jsstring) : jsstring :=
  match binary with
  | [] => []
  | [a] => [b64_char (a / 4); b64_char (a mod 4 * 16); 61; 61]
  | [a; b] =>
      [b64_char (a / 4); b64_char (a mod 4 * 16 + b / 16);
       b64_char (b mod 16 * 4); 61]
  | a :: b :: c :: r =>
      b64_char (a / 4) :: b64_char (a mod 4 * 16 + b / 16)
      :: b64_char (b mod 16 * 4 + c / 64) :: b64_char (c mod 64) :: btoa r
  end.

Definition is_ascii_ws (c : Z) : bool :=
  (c =? 9) || (c =? 10) || (c =? 12) || (c =? 13) || (c =? 32).

(** Remove one trailing [=], if there is one. *)
Definition drop_last_eq (s : jsstring) : jsstring :=
  match rev s with
  | c :: r => if c =? 61 then rev r else s
  | [] => s
  end.

Fixpoint sextets (s : jsstring) : option (list Z) :=
  match s with
  | [] => Some []
  | c :: r =>
      match b64_value c, sextets r with
      | Some v, Some vs => Some (v :: vs)
      | _, _ => None
      end
  end.

(** Groups of four sextets give three bytes; of a last group of three
    or two sextets the low two or four bits are discarded. *)
Fixpoint sextet_bytes (vs : list Z) : list Z :=
  match vs with
  | a :: b :: c :: d :: r =>
      let n := ((a * 64 + b) * 64 + c) * 64 + d in
      n / 65536 :: (n / 256) mod 256 :: n mod 256 :: sextet_bytes r
  | [a; b; c] =>
      let n := ((a * 64 + b) * 64 + c) / 4 in [n / 256; n mod 256]
  | [a; b] => [(a * 64 + b) / 16]
  | _ => []
  end.

(** [atob(data)], the forgiving base64 decoding; [None] when it throws. *)
Definition atob (data : jsstring) : option jsstring :=
  let data := filter (fun c => negb (is_ascii_ws c)) data in
  let data :=
    if Z.of_nat (length data) mod 4 =? 0
    then drop_last_eq (drop_last_eq data) else data in
  if Z.of_nat (length data) mod 4 =? 1 then None
  else option_map sextet_bytes (sextets data).

(** *** The codec *)

(** [encodeBase64Url] *)
Definition encodeBase64Url (value : jsstring) : jsstring :=
  let utf8Bytes := TextEncoder_encode value in
  let binary := utf8Bytes in
  let base64 := btoa binary in
  strip_end (fun c => c =? 61)
    (replace_char 47 (lit "_") (replace_char 43 (lit "-") base64)).

(** [decodeBase64Url]; [None] when [atob] throws. *)
Definition decodeBase64Url (value : jsstring) : option jsstring :=
  let normalized :=
    replace_char 95 (lit "/") (replace_char 45 (lit "+") value) in
  let padLength := (4 - Z.of_nat (length normalized) mod 4) mod 4 in
  let padded := normalized ++ repeat 61 (Z.to_nat padLength) in
  match atob padded with
  | None => None
  | Some binary =>
      let bytes := map (fun char => char mod 256) binary in
      Some (TextDecoder_decode bytes)
  end.

(** A string is well formed when its code units are 16-bit and every
    surrogate is half of a pair. *)
Fixpoint well_formed (s : jsstring) : bool :=
  match s with
  | [] => true
  | c :: r =>
      if is_high c then
        match r with
        | d :: r' => is_low d && well_formed r'
        | [] => false
        end
      else (0 <=? c) && (c <=? 0xFFFF) && negb (is_low c) && well_formed r
  end.

End ShareCodec.

(* ================================================================= *)
(** ** The paginator, lib/paging *)

Module Paging.

(** Add a character in front of the first part. *)
Definition push (c : Z) (parts : list jsstring) : list jsstring :=
  match parts with
  | h :: t => (c :: h) :: t
  | [] => [[c]]
  end.

(** Modelled from the spec: step 1 of the paginator, the split of the
    buffer on the marker. It is [s.split(sep)] for a separator that is
    not empty: the parts between the occurrences of [sep], found from
    left to right; [skip] counts the characters of an occurrence that
    are still to be passed over. *)
Fixpoint split_from (sep : jsstring) (skip : nat) (s : jsstring)
  : list jsstring :=
  match s with
  | [] => [[]]
  | c :: r =>
      match skip with
      | S k => split_from sep k r
      | O =>
          if starts_with sep s
          then [] :: split_from sep (length sep - 1) r
          else push c (split_from sep O r)
      end
  end.

Definition split_on (sep s : jsstring) : list jsstring := split_from sep 0 s.

Definition is_nl (c : Z) : bool := c =? NL.

Definition starts_with_nl (s : jsstring) : bool :=
  match s with
  | c :: _ => is_nl c
  | [] => false
  end.

(** Modelled from the spec: step 2 of the paginator, the paragraphs of a
    segment, "maximal runs of text separated by blank lines - two or
    more consecutive newlines". It is [s.split(/\n{2,}/)]: the parts
    between the runs of two or more newlines; [in_run] holds while such
    a run is being passed over. *)
Fixpoint paragraphs_from (in_run : bool) (s : jsstring) : list jsstring :=
  match s with
  | [] => [[]]
  | c :: r =>
      if is_nl c then
        if in_run then paragraphs_from true r
        else if starts_with_nl r then [] :: paragraphs_from true r
        else push c (paragraphs_from false r)
      else push c (paragraphs_from false r)
  end.

Definition paragraphs (s : jsstring) : list jsstring := paragraphs_from false s.

(** Modelled from the spec: step 5, a paragraph of "pure whitespace". *)
Definition is_blank (p : jsstring) : bool := forallb is_ws p.

(** Modelled from the spec: steps 3 and 4, the greedy accumulation of
    the paragraphs of one segment. [current] is the page being filled,
    empty when none is. The next paragraph is appended, after a blank
    line, if the page stays at or under the limit; otherwise the page is
    closed, trimmed, and the paragraph starts the next one. *)
Fixpoint accumulate (softLimit : Z) (current : jsstring)
    (paras : list jsstring) : list jsstring :=
  match paras with
  | [] => if is_empty current then [] else [trim current]
  | p :: rest =>
      if is_empty current then accumulate softLimit p rest
      else
        let candidate := current ++ [NL; NL] ++ p in
        if Z.of_nat (length candidate) <=? softLimit
        then accumulate softLimit candidate rest
        else trim current :: accumulate softLimit p rest
  end.

Section WithToken.

(** Modelled from the spec: lib/paging is not among the sources. The
    page-break marker is "a fixed literal string constant"; the spec
    does not give it, so it is a parameter. *)
Variable PAGE_BREAK_TOKEN : jsstring.

(** Modelled from the spec: lib/paging is not among the sources. The
    six steps of the paginator: split on the marker; split each segment
    into paragraphs at blank lines; drop the paragraphs of white space;
    fill pages greedily under the soft limit, an oversized paragraph
    being a page of its own; emit each page trimmed; and give one empty
    page when there is none. *)
Definition splitContentIntoPages (buffer : jsstring) (softLimit : Z)
  : list jsstring :=
  let segments := split_on PAGE_BREAK_TOKEN buffer in
  let pages :=
    flat_map
      (fun segment =>
         accumulate softLimit []
           (filter (fun p => negb (is_blank p)) (paragraphs segment)))
      segments in
  match pages with
  | [] => [[]]
  | _ => pages
  end.

End WithToken.

(** A token is usable when it is not empty and holds no newline. *)
Definition valid_token (token : jsstring) : bool :=
  negb (is_empty token) && negb (existsb is_nl token).

End Paging.

(* ================================================================= *)
(** ** src/app/components/EditorPanel.tsx *)

Module EditorPanel.

(** [nextPages[pageIndex] = value] on a copy of [pages]. An index past
    the end leaves holes before the new element; [map] and [filter] pass
    over holes, so only the elements are kept. *)
Definition set_page (pages : list jsstring) (pageIndex : nat)
    (value : jsstring) : list jsstring :=
  if (pageIndex <? length pages)%nat
  then firstn pageIndex pages ++ value :: skipn (S pageIndex) pages
  else pages ++ [value].

(** [updatePageContent]: the content handed to [onChange]. *)
Definition updatePageContent (pages : list jsstring) (pageIndex : nat)
    (value : jsstring) : jsstring :=
  let nextPages := set_page pages pageIndex value in
  join [NL; NL]
    (filter (fun page => negb (is_empty page)) (map trim nextPages)).

(** The pages of the editor are those of the content under the soft
    limit 1800; an edit of one page gives the next content. *)
Definition edit (token content : jsstring) (pageIndex : nat)
    (value : jsstring) : jsstring :=
  updatePageContent (Paging.splitContentIntoPages token content 1800)
    pageIndex value.

End EditorPanel.

(* ================================================================= *)
(** ** The preflight analyzer, lib/preflight *)

Module Preflight.

Inductive severity : Type := none | minor | major.

Definition rank (s : severity) : nat :=
  match s with none => 0 | minor => 1 | major => 2 end.

Definition max_severity (a b : severity) : severity :=
  if (rank a <? rank b)%nat then b else a.

Record issue : Type :=
  { id : string; title : string; text : string; level : severity }.

Record report : Type :=
  { report_severity : severity; report_issues : list issue }.

(** The starts of the lines of [s]: [s] itself and what follows each
    line terminator. *)
Definition is_line_terminator (c : Z) : bool :=
  (c =? 10) || (c =? 13) || (c =? 8232) || (c =? 8233).

Fixpoint line_starts (s : jsstring) : list jsstring :=
  s :: match s with
       | [] => []
       | c :: r =>
           if is_line_terminator c then line_starts r
           else tl (line_starts r)
       end.

Definition next_is_space (s : jsstring) : bool :=
  match s with c :: _ => is_ws c | [] => false end.

Fixpoint drop_while (p : Z -> bool) (s : jsstring) : jsstring :=
  match s with
  | c :: r => if p c then drop_while p r else s
  | [] => []
  end.

Definition is_digit (c : Z) : bool := (48 <=? c) && (c <=? 57).

(** [#] one to six times, then a space. *)
Definition is_heading (line : jsstring) : bool :=
  let rest := drop_while (fun c => c =? 35) line in
  let n := (length line - length rest)%nat in
  (1 <=? n)%nat && (n <=? 6)%nat && next_is_space rest.

(** [-] or [*], then a space. *)
Definition is_bullet (line : jsstring) : bool :=
  match line with
  | c :: r => ((c =? 45) || (c =? 42)) && next_is_space r
  | [] => false
  end.

(** Digits, a full stop, then a space. *)
Definition is_numbered (line : jsstring) : bool :=
  let rest := drop_while is_digit line in
  (length rest <? length line)%nat &&
  match rest with
  | c :: r => (c =? 46) && next_is_space r
  | [] => false
  end.

(** Heading markers, list markers or paragraph breaks: the pattern
    [/^#{1,6}\s|\n{2,}|^[-*]\s|^\d+\.\s/m] of [hasDocumentStructure]
    in the paginator panel. *)
Definition has_structure (buffer : jsstring) : bool :=
  existsb (fun l => is_heading l || is_bullet l || is_numbered l)
    (line_starts buffer)
  || includes [NL; NL] buffer.

Section WithPolicy.

(** Modelled from the spec: lib/preflight is not among the sources. The
    marker is the one of the paginator, and the nominal page size is the
    "page-size target" of the oversized-segment check; the spec fixes
    neither, so both are parameters. *)
Variable PAGE_BREAK_TOKEN : jsstring.
Variable pageTarget : Z.

Definition structure_issue : issue :=
  {| id := "structure"; title := "No document structure";
     text := "Content may render as an unstructured blob.";
     level := minor |}.

Definition oversized_issue : issue :=
  {| id := "oversized-segment"; title := "Oversized segment";
     text := "A page far exceeds the nominal page size.";
     level := major |}.

Definition dangling_issue : issue :=
  {| id := "dangling-marker"; title := "Dangling page break";
     text := "A page-break marker has no content next to it.";
     level := minor |}.

(** Modelled from the spec: the structure check, which finds no block
    structure in a buffer that is not empty. *)
Definition structure_check (buffer : jsstring) : list issue :=
  if negb (is_empty (trim buffer)) && negb (has_structure buffer)
  then [structure_issue] else [].

(** Modelled from the spec: the oversized-segment check, a page of more
    than twice the nominal size. *)
Definition oversized_check (buffer : jsstring) : list issue :=
  if existsb (fun page => 2 * pageTarget <? Z.of_nat (length page))
       (Paging.splitContentIntoPages PAGE_BREAK_TOKEN buffer pageTarget)
  then [oversized_issue] else [].

(** Modelled from the spec: the dangling-marker check, a marker with no
    content on a side of it. *)
Definition dangling_check (buffer : jsstring) : list issue :=
  let segments := Paging.split_on PAGE_BREAK_TOKEN buffer in
  if (1 <? length segments)%nat && existsb Paging.is_blank segments
  then [dangling_issue] else [].

(** Modelled from the spec: lib/preflight is not among the sources. One
    issue for each condition met, in the order of detection, and the
    highest of their levels. The catalogue hint is shown by the panel
    itself and is no issue of the analyzer. *)
Definition analyzeDocument (buffer : jsstring) : report :=
  let issues :=
    structure_check buffer ++ oversized_check buffer
    ++ dangling_check buffer in
  {| report_severity := fold_right max_severity none (map level issues);
     report_issues := issues |}.

End WithPolicy.

End Preflight.

(* ================================================================= *)
(** ** More operations on strings *)

Module JsStringMore.

(** [s === t] on strings. *)
Fixpoint string_eqb (s t : jsstring) : bool :=
  match s, t with
  | [], [] => true
  | a :: s', b :: t' => (a =? b) && string_eqb s' t'
  | _, _ => false
  end.

(** The rest of [s] after the literal [p], when [s] begins with it. *)
Fixpoint strip_prefix (p s : jsstring) : option jsstring :=
  match p, s with
  | [], _ => Some s
  | a :: p', b :: s' => if a =? b then strip_prefix p' s' else None
  | _ :: _, [] => None
  end.

(** The longest prefix of [s] of characters that satisfy [p], and the
    rest of [s]: a greedy repetition of a character class. *)
Fixpoint span (p : Z -> bool) (s : jsstring) : jsstring * jsstring :=
  match s with
  | c :: r =>
      if p c then let '(a, b) := span p r in (c :: a, b) else ([], s)
  | [] => ([], [])
  end.

End JsStringMore.

(* ================================================================= *)
(** ** Numbers as text *)

Module JsNumber.

(** [String(n)] for an integer [n] that is not negative: its decimal
    digits. *)
Definition to_string (n : Z) : jsstring :=
  lit (DecimalString.NilZero.string_of_uint (N.to_uint (Z.to_N n))).

(** [Math.round(a / b)] for integers [a >= 0] and [b > 0] whose quotient
    is exact as a double: halves go up. *)
Definition round_div (a b : Z) : Z := (2 * a + b) / (2 * b).

(** [x.toFixed(1)] for [x = a / b], with [a >= 0], [b > 0] and the
    quotient exact as a double: the nearest tenth, halves up, and its
    digits around the point. *)
Definition to_fixed_1 (a b : Z) : jsstring :=
  let n := round_div (10 * a) b in
  to_string (n / 10) ++ lit "." ++ to_string (n mod 10).

(** A value of type number: a finite value, given by the rational that
    it denotes, an infinity or NaN. The two zeros are one value. *)
Inductive number : Type :=
  | Finite (q : QArith_base.Q)
  | PosInfinity
  | NegInfinity
  | NaN.

Definition of_int (z : Z) : number := Finite (QArith_base.inject_Z z).

Definition is_nan (a : number) : bool :=
  match a with NaN => true | _ => false end.

(** [Math.max(a, b)] *)
Definition math_max (a b : number) : number :=
  match a, b with
  | NaN, _ | _, NaN => NaN
  | PosInfinity, _ | _, PosInfinity => PosInfinity
  | NegInfinity, x | x, NegInfinity => x
  | Finite p, Finite q => Finite (Qminmax.Qmax p q)
  end.

(** [Math.min(a, b)] *)
Definition math_min (a b : number) : number :=
  match a, b with
  | NaN, _ | _, NaN => NaN
  | NegInfinity, _ | _, NegInfinity => NegInfinity
  | PosInfinity, x | x, PosInfinity => x
  | Finite p, Finite q => Finite (Qminmax.Qmin p q)
  end.

(** [a >= b] *)
Definition ge (a b : number) : bool :=
  match a, b with
  | NaN, _ | _, NaN => false
  | PosInfinity, _ | _, NegInfinity => true
  | NegInfinity, _ | _, PosInfinity => false
  | Finite p, Finite q => QArith_base.Qle_bool q p
  end.

(** [a - b]; for finite [a] and [b], where the difference is exact as a
    double, as it is for a double between 2 and 24 and a smaller array
    length. *)
Definition sub (a b : number) : number :=
  match a, b with
  | NaN, _ | _, NaN => NaN
  | PosInfinity, PosInfinity | NegInfinity, NegInfinity => NaN
  | PosInfinity, _ | _, NegInfinity => PosInfinity
  | NegInfinity, _ | _, PosInfinity => NegInfinity
  | Finite p, Finite q => Finite (QArith_base.Qminus p q)
  end.

(** [ToIntegerOrInfinity] on a finite value: the fraction is dropped. *)
Definition truncate (q : QArith_base.Q) : Z :=
  if QArith_base.Qle_bool (QArith_base.inject_Z 0) q
  then Qround.Qfloor q else Qround.Qceiling q.

End JsNumber.

(* ================================================================= *)
(** ** The preview panel, src/unnamed/part_000 *)

Module PreviewPanel.

(** [targetPages] *)
Definition targetPages (fullBookPreview : bool) (previewPageCount : Z) : Z :=
  if fullBookPreview then Z.min (Z.max previewPageCount 2) 24 else 2.

(** [pageChunks]: the first [targetPages] pages, or all of them and
    empty pages up to that number. *)
Definition pageChunks (baseChunks : list jsstring) (fullBookPreview : bool)
    (previewPageCount : Z) : list jsstring :=
  let targetPages := targetPages fullBookPreview previewPageCount in
  if targetPages <=? Z.of_nat (length baseChunks)
  then firstn (Z.to_nat targetPages) baseChunks
  else baseChunks
       ++ repeat [] (Z.to_nat (targetPages - Z.of_nat (length baseChunks))).

(** [maxPageIndex] *)
Definition maxPageIndex (pageChunks : list jsstring) : Z :=
  Z.max 0 (Z.of_nat (length pageChunks) - 1).

(** [leftPageIndex] *)
Definition leftPageIndex (spreadView : bool) (currentPage : Z) : Z :=
  if spreadView then Z.max 0 (currentPage / 2 * 2) else currentPage.

(** [rightPageIndex] *)
Definition rightPageIndex (maxPageIndex leftPageIndex : Z) : Z :=
  Z.min maxPageIndex (leftPageIndex + 1).

(** [goPrev] and [goNext], as functions of the current page. *)
Definition goPrev (spreadView : bool) (prev : Z) : Z :=
  Z.max 0 (prev - (if spreadView then 2 else 1)).

Definition goNext (spreadView : bool) (maxPageIndex prev : Z) : Z :=
  Z.min maxPageIndex (prev + (if spreadView then 2 else 1)).

(** The effect that follows a change of [maxPageIndex]. *)
Definition clampPage (maxPageIndex prev : Z) : Z := Z.min prev maxPageIndex.

(** [pageChunks[pageIndex]]: [None] for [undefined]. *)
Definition chunk_at (pageChunks : list jsstring) (pageIndex : Z)
  : option jsstring :=
  if pageIndex <? 0 then None else nth_error pageChunks (Z.to_nat pageIndex).

(** The indices of the pages that are drawn. *)
Definition drawn_pages (spreadView : bool) (maxPageIndex currentPage : Z)
  : list Z :=
  let left := leftPageIndex spreadView currentPage in
  left :: (if spreadView then [rightPageIndex maxPageIndex left] else []).

(** [parseSingleImageMarkdown]: the address that the anchored pattern
    of the source captures on the trimmed page. The pattern reads: [![],
    characters other than []], then [](], the address (one or more
    characters other than [)] and white space), optionally white space
    and a title between double quotes, then [)] and the end of the
    text. Each repetition is of characters that cannot stand where the
    pattern goes on, so that the longest repetition is the only one to
    try. *)
Definition parseSingleImageMarkdown (pageMarkdown : jsstring)
  : option jsstring :=
  let trimmed := trim pageMarkdown in
  if is_empty trimmed then None
  else
    match JsStringMore.strip_prefix (lit "![") trimmed with
    | None => None
    | Some r =>
        let after_alt := snd (JsStringMore.span (fun c => negb (c =? 93)) r) in
        match JsStringMore.strip_prefix (lit "](") after_alt with
        | None => None
        | Some r1 =>
            let '(url, r2) :=
              JsStringMore.span (fun c => negb ((c =? 41) || is_ws c)) r1 in
            if is_empty url then None
            else if JsStringMore.string_eqb r2 (lit ")") then Some url
            else
              let '(spaces, r3) := JsStringMore.span is_ws r2 in
              if is_empty spaces then None
              else
                match JsStringMore.strip_prefix [34] r3 with
                | None => None
                | Some r4 =>
                    let after_title :=
                      snd (JsStringMore.span (fun c => negb (c =? 34)) r4) in
                    match JsStringMore.strip_prefix [34] after_title with
                    | None => None
                    | Some r5 =>
                        if JsStringMore.string_eqb r5 (lit ")")
                        then Some url else None
                    end
                end
        end
    end.

(** [targetPages] and [pageChunks] for any value of [previewPageCount],
    which is a number that the panel receives unchecked. *)
Definition targetPages_number (fullBookPreview : bool)
    (previewPageCount : JsNumber.number) : JsNumber.number :=
  if fullBookPreview
  then JsNumber.math_min
         (JsNumber.math_max previewPageCount (JsNumber.of_int 2))
         (JsNumber.of_int 24)
  else JsNumber.of_int 2.

(** [baseChunks.slice(0, end)] *)
Definition slice_from_start (baseChunks : list jsstring)
    (e : JsNumber.number) : list jsstring :=
  match e with
  | JsNumber.NaN | JsNumber.NegInfinity => []
  | JsNumber.PosInfinity => baseChunks
  | JsNumber.Finite q =>
      let k := JsNumber.truncate q in
      if k <? 0
      then firstn (Z.to_nat (Z.of_nat (length baseChunks) + k)) baseChunks
      else firstn (Z.to_nat k) baseChunks
  end.

(** [Array.from({ length: n }, () => '')]: [None] when the length is
    refused. *)
Definition empty_pages (n : JsNumber.number) : option (list jsstring) :=
  match n with
  | JsNumber.NaN | JsNumber.NegInfinity => Some []
  | JsNumber.PosInfinity => None
  | JsNumber.Finite q =>
      let k := JsNumber.truncate q in
      if 2 ^ 32 <=? k then None else Some (repeat [] (Z.to_nat k))
  end.

Definition pageChunks_number (baseChunks : list jsstring)
    (fullBookPreview : bool) (previewPageCount : JsNumber.number)
  : option (list jsstring) :=
  let targetPages := targetPages_number fullBookPreview previewPageCount in
  let len := JsNumber.of_int (Z.of_nat (length baseChunks)) in
  if JsNumber.ge len targetPages
  then Some (slice_from_start baseChunks targetPages)
  else option_map (app baseChunks)
         (empty_pages (JsNumber.sub targetPages len)).

(** [pageChunks[pageIndex] || ''] *)
Definition pageMarkdown (pageChunks : list jsstring) (pageIndex : Z)
  : jsstring :=
  match chunk_at pageChunks pageIndex with
  | Some page => page
  | None => []
  end.

(** What the frame of a page holds: the invitation to add content, the
    image of an imported page, or the rendering of a text. *)
Inductive page_view : Type :=
  | Placeholder
  | ImportedImage (src : jsstring)
  | MarkdownText (children : jsstring).

(** The body of a page in the [map] over the drawn pages. *)
Definition page_content (hasContent : bool) (pageChunks : list jsstring)
    (pageIndex : Z) : page_view :=
  let pageMarkdown := pageMarkdown pageChunks pageIndex in
  let text :=
    MarkdownText
      (if negb (is_empty pageMarkdown) then pageMarkdown
       else match chunk_at pageChunks 0 with
            | Some page => page
            | None => []
            end) in
  if hasContent
  then match parseSingleImageMarkdown pageMarkdown with
       | Some singleImageUrl =>
           if negb (is_empty singleImageUrl)
           then ImportedImage singleImageUrl else text
       | None => text
       end
  else Placeholder.

End PreviewPanel.

(* ================================================================= *)
(** ** The paginator panel, src/app/components/SettingsPanel.tsx *)

Module PaginatorPanel.

Inductive layout_format : Type := zine | book | catalogue | report | custom.

Record LayoutPreset : Type :=
  { preset_id : jsstring;
    preset_name : jsstring;
    format : layout_format;
    fullBookPreview : bool;
    previewPageCount : Z }.

(** [saveCurrentPreset]: the next list of presets and the name given to
    [onActivePresetNameChange]. [uuid] is the result of
    [crypto.randomUUID()]. *)
Definition saveCurrentPreset (savedPresets : list LayoutPreset)
    (uuid : jsstring) (selectedFormat : layout_format)
    (fullBook : bool) (pageCount : Z) : list LayoutPreset * jsstring :=
  let nextIndex := Z.of_nat (length savedPresets) + 1 in
  let preset :=
    {| preset_id := uuid;
       preset_name := lit "Layout Preset " ++ JsNumber.to_string nextIndex;
       format := selectedFormat;
       fullBookPreview := fullBook;
       previewPageCount := pageCount |} in
  (preset :: savedPresets, preset_name preset).

(** [applyPresetById]: the preset whose fields go to the four callbacks,
    [None] when the function returns without calling them. *)
Definition applyPresetById (savedPresets : list LayoutPreset)
    (presetId : jsstring) : option LayoutPreset :=
  find (fun item => JsStringMore.string_eqb (preset_id item) presetId)
    savedPresets.

(** A position at which [!\[[^\]]*]\([^)]+\)] matches: [![], characters
    other than []], then [](], one or more characters other than [)],
    then [)]. *)
Definition image_at (s : jsstring) : bool :=
  match JsStringMore.strip_prefix (lit "![") s with
  | None => false
  | Some r =>
      let after_alt := snd (JsStringMore.span (fun c => negb (c =? 93)) r) in
      match JsStringMore.strip_prefix (lit "](") after_alt with
      | None => false
      | Some r1 =>
          let '(url, r2) :=
            JsStringMore.span (fun c => negb (c =? 41)) r1 in
          negb (is_empty url)
          && match JsStringMore.strip_prefix (lit ")") r2 with
             | Some _ => true
             | None => false
             end
      end
  end.

Fixpoint suffixes (s : jsstring) : list jsstring :=
  s :: match s with
       | [] => []
       | _ :: r => suffixes r
       end.

Definition list_item_at (line : jsstring) : bool :=
  Preflight.is_bullet line || Preflight.is_numbered line.

(** [hasDocumentStructure] *)
Definition hasDocumentStructure (content : jsstring) : bool :=
  negb (is_empty (trim content)) && Preflight.has_structure content.

(** [hasCatalogueItems]:
    [/!\[[^\]]*]\([^)]+\)|^[-*]\s|^\d+\.\s/m.test(content)] *)
Definition hasCatalogueItems (content : jsstring) : bool :=
  existsb image_at (suffixes content)
  || existsb list_item_at (Preflight.line_starts content).

End PaginatorPanel.

(* ================================================================= *)
(** ** The application, src/unnamed/part_001 *)

Module App.

(** [formatBytes], for a size that is an integer and not negative. *)
Definition formatBytes (bytes : Z) : jsstring :=
  if bytes <? 1024 then JsNumber.to_string bytes ++ lit " B"
  else if bytes <? 1024 * 1024
  then JsNumber.to_string (JsNumber.round_div bytes 1024) ++ lit " KB"
  else JsNumber.to_fixed_1 bytes (1024 * 1024) ++ lit " MB".

End App.

(* ================================================================= *)
(** ** The print preview, src/app/components/SettingsPanel.tsx *)

Module PrintPreview.

(** [s.slice(0, n)] for [n >= 0]. *)
Definition slice_to (n : nat) (s : jsstring) : jsstring := firstn n s.

(** [docTitle] of [openPdfPrintPreview]; an absent title is [None]. *)
Definition docTitle (title : option jsstring) : jsstring :=
  let trimmed := match title with Some t => trim t | None => [] end in
  slice_to 120
    (if negb (is_empty trimmed) then trimmed else lit "DocKernel Export").

End PrintPreview.

(* ================================================================= *)
(** ** Notions of the statements and of their proofs *)

(** *** The codec *)

(** A scalar value: a code point that is no surrogate. *)
Definition is_scalar (cp : Z) : bool :=
  (0 <=? cp) && (cp <=? 0x10FFFF) && negb ((0xD800 <=? cp) && (cp <=? 0xDFFF)).

Definition is_sextet (v : Z) : Prop := 0 <= v < 64.

Definition is_byte (b : Z) : Prop := 0 <= b < 256.

(** The two replacements of [encodeBase64Url], and the two of
    [decodeBase64Url]. *)
Definition to_url (s : jsstring) : jsstring :=
  replace_char 47 (lit "_") (replace_char 43 (lit "-") s).

Definition from_url (s : jsstring) : jsstring :=
  replace_char 95 (lit "/") (replace_char 45 (lit "+") s).

Definition to_url_char (c : Z) : Z :=
  let c1 := if c =? 43 then 45 else c in if c1 =? 47 then 95 else c1.

Definition from_url_char (c : Z) : Z :=
  let c1 := if c =? 45 then 43 else c in if c1 =? 95 then 47 else c1.

(** *** The URL filter *)

(** The lower-case form of an ASCII letter; any other code unit is
    itself. *)
Definition ascii_lower (c : Z) : Z :=
  if (65 <=? c) && (c <=? 90) then c + 32 else c.

(** [s] begins with the lower-case text [p], the case of the ASCII
    letters of [s] set aside. *)
Definition begins_ignoring_case (s p : jsstring) : bool :=
  starts_with p (map ascii_lower s).

(** *** The paginator *)

(** The paragraphs of a string that goes on after [a] with a character
    other than a newline: those of [a], the last of them running on
    into the first of the rest. *)
Fixpoint glue (xs ys : list jsstring) : list jsstring :=
  match xs with
  | [] => ys
  | [x] => match ys with h :: t => (x ++ h) :: t | [] => [x] end
  | x :: xs' => x :: glue xs' ys
  end.

(** A paragraph or a page within the limit. *)
Definition fits (limit : Z) (p : jsstring) : Prop :=
  Z.of_nat (length p) <= limit.

(** One paragraph per page: the paragraphs of all segments that are not
    blank, each trimmed; the single empty page when there is none. *)
Definition one_paragraph_per_page (token buffer : jsstring) : list jsstring :=
  let paras :=
    filter (fun p => negb (Paging.is_blank p))
      (flat_map Paging.paragraphs (Paging.split_on token buffer)) in
  match paras with
  | [] => [[]]
  | _ => map trim paras
  end.

(** The content of a text: its paragraphs that are not blank, each
    trimmed. Two texts with the same content differ only in the blank
    lines between paragraphs and in the white space around them. *)
Definition content_parts (parts : list jsstring) : list jsstring :=
  map trim (filter (fun p => negb (Paging.is_blank p)) parts).

Definition content (text : jsstring) : list jsstring :=
  content_parts (Paging.paragraphs text).

(** The first parts agree up to white space at their end, and the
    others have the same content, up to the parts [extra]. *)
Definition same_parts (extra : list jsstring) (xs ys : list jsstring) : Prop :=
  match xs, ys with
  | h :: t, h' :: t' =>
      trimEnd h = trimEnd h' /\ content_parts t = content_parts t' ++ extra
  | _, _ => False
  end.


(** A text is free of the marker. *)
Definition marker_free (token text : jsstring) : Prop :=
  includes token text = false.

(** A text with no white space at either end, and not empty. *)
Definition is_tight (p : jsstring) : Prop :=
  p <> [] /\ trimStart p = p /\ trimEnd p = p.




(** *** Sample inputs *)

(** A sample marker, the buffer of two pages that it separates, and a
    text of three paragraphs. *)
Definition sample_token : jsstring := lit "<!-- pagebreak -->".

Definition sample_buffer : jsstring :=
  lit "A" ++ [NL; NL] ++ sample_token ++ [NL; NL] ++ lit "B".

Definition sample_text : jsstring :=
  lit "# Title " ++ [NL; NL; NL] ++ lit " Para one." ++ [NL; NL]
  ++ lit "Para two," ++ [NL] ++ lit "second line" ++ [NL].


(** *** Further notions *)

(** The text that stands for one character after escaping. *)
Definition entity (c : Z) : jsstring :=
  if c =? 38 then lit "&amp;"
  else if c =? 60 then lit "&lt;"
  else if c =? 62 then lit "&gt;"
  else if c =? 34 then lit "&quot;"
  else if c =? 39 then lit "&#39;"
  else [c].

(** A string of 16-bit code units: any value of the type [string]. *)
Definition is_string (s : jsstring) : bool :=
  forallb (fun c => (0 <=? c) && (c <=? 0xFFFF)) s.

(** A letter, a digit, [-] or [_]. *)
Definition is_url_safe (c : Z) : bool :=
  ((65 <=? c) && (c <=? 90)) || ((97 <=? c) && (c <=? 122))
  || ((48 <=? c) && (c <=? 57)) || (c =? 45) || (c =? 95).

(** What comes back from the codec: unpaired surrogates replaced by
    U+FFFD, and a leading U+FEFF dropped. *)
Definition replace_unpaired (s : jsstring) : jsstring :=
  flat_map ShareCodec.utf16_units (ShareCodec.to_scalar_values s).

Definition drop_bom (s : jsstring) : jsstring :=
  match s with
  | c :: r => if c =? 0xFEFF then r else s
  | [] => []
  end.

(** A character that [decodeBase64Url] can take: one of the two
    alphabets, [=], or ASCII white space. *)
Definition is_base64_input (c : Z) : bool :=
  match ShareCodec.b64_value (from_url_char c) with
  | Some _ => true
  | None => (c =? 61) || ShareCodec.is_ascii_ws c
  end.

(* ================================================================= *)
(** ** Facts about strings *)

Section StringFacts.

Lemma strip_end_cons p c r :
  strip_end p (c :: r) =
  match strip_end p r with
  | [] => if p c then [] else [c]
  | r' => c :: r'
  end.
Proof. reflexivity. Qed.

Lemma strip_end_app p x y :
  strip_end p (x ++ y) =
  match strip_end p y with
  | [] => strip_end p x
  | y' => x ++ y'
  end.
Proof.
  induction x as [|c x IH]; cbn [app].
  - destruct (strip_end p y); reflexivity.
  - rewrite !strip_end_cons, IH.
    destruct (strip_end p y) as [|d y']; [reflexivity|].
    destruct x; reflexivity.
Qed.

Lemma strip_end_all p s : forallb p s = true -> strip_end p s = [].
Proof.
  induction s as [|c s IH]; [reflexivity|].
  cbn [forallb]. intros [Hc Hs]%andb_prop.
  now rewrite strip_end_cons, IH, Hc.
Qed.

Lemma strip_end_none p s :
  Forall (fun c => p c = false) s -> strip_end p s = s.
Proof.
  induction 1 as [|c s Hc _ IH]; [reflexivity|].
  rewrite strip_end_cons, IH, Hc. destruct s; reflexivity.
Qed.

Lemma strip_end_length p s : (length (strip_end p s) <= length s)%nat.
Proof.
  induction s as [|c s IH]; [reflexivity|].
  rewrite strip_end_cons.
  destruct (strip_end p s); [destruct (p c)|]; cbn [length] in *; lia.
Qed.

Lemma replace_char_single c d s :
  replace_char c [d] s = map (fun x => if x =? c then d else x) s.
Proof.
  unfold replace_char. induction s as [|x s IH]; [reflexivity|].
  cbn [flat_map map]. rewrite IH. destruct (x =? c); reflexivity.
Qed.


(** *** Trimming *)

Lemma strip_end_nil p s : strip_end p s = [] -> forallb p s = true.
Proof.
  induction s as [|c s IH]; [reflexivity|].
  rewrite strip_end_cons. cbn [forallb].
  destruct (strip_end p s); [|discriminate].
  destruct (p c); [intros _; now rewrite IH | discriminate].
Qed.

Lemma strip_end_split p s :
  exists w, s = strip_end p s ++ w /\ forallb p w = true.
Proof.
  induction s as [|c s (w & Hs & Hw)]; [now exists []|].
  rewrite strip_end_cons.
  destruct (strip_end p s) as [|d r] eqn:E.
  - destruct (p c) eqn:Hc.
    + exists (c :: s). split; [reflexivity|].
      cbn [forallb]. rewrite Hc. now apply strip_end_nil.
    + exists s. split; [reflexivity | now apply strip_end_nil].
  - exists w. split; [|exact Hw]. rewrite <- app_comm_cons. now rewrite <- Hs.
Qed.

Lemma trimStart_split s :
  exists w, s = w ++ trimStart s /\ forallb is_ws w = true.
Proof.
  induction s as [|c s (w & Hs & Hw)]; [now exists []|].
  cbn [trimStart]. destruct (is_ws c) eqn:Hc.
  - exists (c :: w). cbn [app forallb]. now rewrite Hc, <- Hs.
  - now exists [].
Qed.

Lemma trimStart_length s : (length (trimStart s) <= length s)%nat.
Proof.
  induction s as [|c s IH]; [reflexivity|].
  cbn [trimStart]. destruct (is_ws c); cbn [length]; lia.
Qed.

Lemma trim_length s : (length (trim s) <= length s)%nat.
Proof.
  unfold trim, trimEnd.
  pose proof (strip_end_length is_ws (trimStart s)).
  pose proof (trimStart_length s). lia.
Qed.

Lemma trimStart_all_ws s : forallb is_ws s = true -> trimStart s = [].
Proof.
  induction s as [|c s IH]; [reflexivity|].
  cbn [forallb trimStart]. intros [-> Hs]%andb_prop. auto.
Qed.

(** The two trims commute. *)
Lemma trimEnd_trimStart s : trimEnd (trimStart s) = trimStart (trimEnd s).
Proof.
  unfold trimEnd. induction s as [|c s IH]; [reflexivity|].
  rewrite strip_end_cons. cbn [trimStart]. destruct (is_ws c) eqn:Hc.
  - rewrite IH. destruct (strip_end is_ws s); [reflexivity|].
    cbn [trimStart]. now rewrite Hc.
  - rewrite strip_end_cons.
    destruct (strip_end is_ws s); cbn [trimStart]; now rewrite Hc.
Qed.

(** Strings with the same right trim have the same trim, and are blank
    together. *)
Lemma trim_of_trimEnd a b : trimEnd a = trimEnd b -> trim a = trim b.
Proof. unfold trim. rewrite !trimEnd_trimStart. now intros ->. Qed.

Lemma blank_of_trimEnd a b :
  trimEnd a = trimEnd b -> forallb is_ws a = forallb is_ws b.
Proof.
  unfold trimEnd. intros H.
  destruct (forallb is_ws a) eqn:Ha.
  - symmetry. apply strip_end_nil. rewrite <- H. now apply strip_end_all.
  - destruct (forallb is_ws b) eqn:Hb; [|reflexivity].
    rewrite <- Ha. apply strip_end_nil. rewrite H. now apply strip_end_all.
Qed.

Lemma trimEnd_cons c a b : trimEnd a = trimEnd b -> trimEnd (c :: a) = trimEnd (c :: b).
Proof. unfold trimEnd. rewrite !strip_end_cons. now intros ->. Qed.

Lemma trimEnd_ws_cons c a :
  is_ws c = true -> trim (c :: a) = trim a.
Proof. intros H. unfold trim. cbn [trimStart]. now rewrite H. Qed.

Lemma trimStart_idempotent x : trimStart (trimStart x) = trimStart x.
Proof.
  induction x as [|c x IH]; [reflexivity|].
  cbn [trimStart]. destruct (is_ws c) eqn:Hc; [exact IH|].
  cbn [trimStart]. now rewrite Hc.
Qed.

Lemma strip_end_idempotent p x : strip_end p (strip_end p x) = strip_end p x.
Proof.
  induction x as [|c x IH]; [reflexivity|].
  rewrite strip_end_cons.
  destruct (strip_end p x) as [|d r] eqn:E.
  - destruct (p c) eqn:Hc; [reflexivity|].
    cbn [strip_end]. now rewrite Hc.
  - rewrite strip_end_cons, IH. reflexivity.
Qed.

Lemma trim_trimStart x : trimStart (trim x) = trim x.
Proof.
  unfold trim. now rewrite trimEnd_trimStart, trimStart_idempotent.
Qed.

Lemma trim_trimEnd x : trimEnd (trim x) = trim x.
Proof. unfold trim, trimEnd. apply strip_end_idempotent. Qed.

Lemma trim_idempotent x : trim (trim x) = trim x.
Proof. unfold trim at 1. now rewrite trim_trimStart, trim_trimEnd. Qed.

Lemma trim_nil_all_ws s : trim s = [] -> forallb is_ws s = true.
Proof.
  unfold trim, trimEnd. intros H%strip_end_nil.
  destruct (trimStart_split s) as (w & Hs & Hw).
  rewrite Hs, forallb_app, Hw, H. reflexivity.
Qed.

(** *** Occurrences *)

Lemma starts_with_app p b : starts_with p (p ++ b) = true.
Proof.
  induction p as [|a p IH]; [reflexivity|].
  cbn [app starts_with]. now rewrite Z.eqb_refl.
Qed.

Lemma starts_with_inv p s :
  starts_with p s = true -> exists b, s = p ++ b.
Proof.
  revert s; induction p as [|a p IH]; intros s; [now exists s|].
  destruct s as [|c s]; [discriminate|]. cbn [starts_with].
  intros [->%Z.eqb_eq Hs]%andb_prop.
  destruct (IH _ Hs) as (b & ->). now exists b.
Qed.

Lemma starts_with_extend p s t :
  starts_with p s = true -> starts_with p (s ++ t) = true.
Proof. intros (b & ->)%starts_with_inv. rewrite <- app_assoc. apply starts_with_app. Qed.

Lemma includes_cons p c s :
  includes p (c :: s) = starts_with p (c :: s) || includes p s.
Proof. reflexivity. Qed.

Lemma includes_app_false p x y :
  includes p (x ++ y) = false -> includes p x = false /\ includes p y = false.
Proof.
  induction x as [|c x IH]; cbn [app].
  - intros H. split; [|exact H].
    destruct y as [|d y]; [exact H|].
    cbn [includes] in *. apply orb_false_elim in H as [H _].
    destruct p; [discriminate | reflexivity].
  - rewrite !includes_cons. intros [H1 H2]%orb_false_elim.
    destruct (IH H2) as [Hx Hy]. split; [|exact Hy].
    rewrite Hx, orb_false_r.
    destruct (starts_with p (c :: x)) eqn:E; [|reflexivity].
    pose proof (starts_with_extend _ _ y E) as E'.
    rewrite <- app_comm_cons in E'. congruence.
Qed.

Lemma includes_nil p : p <> [] -> includes p [] = false.
Proof. destruct p; [congruence | reflexivity]. Qed.

End StringFacts.

(* ================================================================= *)
(** ** The URL filter *)

Section MarkdownFacts.
Import Markdown.

Lemma strip_ci_app (p q s : jsstring) :
  strip_ci (p ++ q) s =
  match strip_ci p s with Some rest => strip_ci q rest | None => None end.
Proof.
  revert s; induction p as [|a p IH]; intros s; simpl; [reflexivity|].
  destruct s as [|b s]; [reflexivity|].
  destruct (canon a =? canon b); [apply IH | reflexivity].
Qed.

Lemma begins_ci_app (p q s : jsstring) :
  begins_ci s (p ++ q) =
  match strip_ci p s with Some rest => begins_ci rest q | None => false end.
Proof.
  unfold begins_ci; rewrite strip_ci_app.
  destruct (strip_ci p s); reflexivity.
Qed.

Lemma test_anchored_Str (p s : jsstring) :
  test_anchored (Str p) s = begins_ci s p.
Proof.
  unfold test_anchored, begins_ci; simpl.
  destruct (strip_ci p s); reflexivity.
Qed.

Lemma test_anchored_Alt (a b : regex) (s : jsstring) :
  test_anchored (Alt a b) s = test_anchored a s || test_anchored b s.
Proof.
  unfold test_anchored; simpl.
  destruct (rmatch a s); simpl; [reflexivity | reflexivity].
Qed.

(** [https?:] admits exactly the prefixes [http:] and [https:]. *)
Lemma test_anchored_https (s : jsstring) :
  test_anchored (Seq (Str (lit "http")) (Seq (Opt (Str (lit "s"))) (Str (lit ":")))) s
  = begins_ci s (lit "http:") || begins_ci s (lit "https:").
Proof.
  change (lit "http:") with (lit "http" ++ lit ":").
  change (lit "https:") with (lit "http" ++ (lit "s" ++ lit ":")).
  rewrite !begins_ci_app.
  unfold test_anchored.
  cbn [rmatch].
  destruct (strip_ci (lit "http") s) as [rest|]; [|reflexivity].
  cbn [flat_map]. rewrite app_nil_r.
  rewrite flat_map_app. cbn [flat_map]. rewrite app_nil_r.
  rewrite (begins_ci_app (lit "s") (lit ":") rest).
  unfold begins_ci.
  destruct (strip_ci (lit "s") rest) as [rest'|].
  - cbn [flat_map]. rewrite app_nil_r.
    destruct (strip_ci (lit ":") rest'), (strip_ci (lit ":") rest); reflexivity.
  - cbn [flat_map app]. destruct (strip_ci (lit ":") rest); reflexivity.
Qed.

Lemma test_anchored_url_pattern (s : jsstring) :
  test_anchored url_pattern s = existsb (begins_ci s) allowed_prefixes.
Proof.
  unfold url_pattern, allowed_prefixes.
  rewrite !test_anchored_Alt, test_anchored_https, !test_anchored_Str.
  cbn [existsb].
  rewrite orb_false_r, <- !orb_assoc. reflexivity.
Qed.

End MarkdownFacts.

(** The filter lets through the trimmed texts that match one of the ten
    prefixes of the pattern, as the matcher compares them. *)
Lemma markdownUrlTransform_prefix_list (url : option jsstring) :
  let trimmed := trim (match url with Some u => u | None => [] end) in
  Markdown.markdownUrlTransform url =
  if negb (is_empty trimmed)
     && existsb (Markdown.begins_ci trimmed) Markdown.allowed_prefixes
  then trimmed else [].
Proof.
  intros trimmed. unfold Markdown.markdownUrlTransform. fold trimmed.
  rewrite test_anchored_url_pattern.
  destruct (is_empty trimmed); reflexivity.
Qed.

Section IgnoringCase.
Import Markdown.

(** A pattern character that is no upper-case letter matches the
    characters whose lower-case form it is. *)
Lemma canon_eqb_lower a b :
  (65 <=? a) && (a <=? 90) = false ->
  (canon a =? canon b) = (a =? ascii_lower b).
Proof.
  unfold canon, ascii_lower. intros Ha.
  destruct (Z.leb_spec 65 a), (Z.leb_spec a 90); try discriminate;
    destruct (Z.leb_spec 97 a), (Z.leb_spec a 122),
             (Z.leb_spec 97 b), (Z.leb_spec b 122),
             (Z.leb_spec 65 b), (Z.leb_spec b 90);
    cbn [andb]; lia.
Qed.

Lemma begins_ci_lower s p :
  forallb (fun a => negb ((65 <=? a) && (a <=? 90))) p = true ->
  begins_ci s p = begins_ignoring_case s p.
Proof.
  unfold begins_ci, begins_ignoring_case. revert s.
  induction p as [|a p IH]; intros s Hp; [reflexivity|].
  cbn [forallb] in Hp. apply andb_prop in Hp as [Ha Hp].
  apply negb_true_iff in Ha.
  destruct s as [|b s]; [reflexivity|].
  cbn [strip_ci map starts_with]. rewrite (canon_eqb_lower a b Ha).
  destruct (a =? ascii_lower b); [apply (IH s Hp) | reflexivity].
Qed.

Lemma allowed_prefixes_lower s :
  existsb (begins_ci s) allowed_prefixes
  = existsb (begins_ignoring_case s) allowed_prefixes.
Proof.
  unfold allowed_prefixes. cbn [existsb].
  now rewrite !begins_ci_lower by reflexivity.
Qed.

(** No text begins both with [javascript:] and with one of the ten
    prefixes. *)
Lemma javascript_not_allowed s :
  begins_ignoring_case s (lit "javascript:") = true ->
  existsb (begins_ignoring_case s) allowed_prefixes = false.
Proof.
  unfold begins_ignoring_case, allowed_prefixes.
  destruct (map ascii_lower s) as [|c r]; [discriminate|].
  change (lit "javascript:") with (106 :: lit "avascript:").
  cbn [starts_with]. intros [<-%Z.eqb_eq _]%andb_prop. reflexivity.
Qed.

End IgnoringCase.

(** C8: [markdownUrlTransform] returns the trimmed URL exactly when it is
    not empty and begins with one of [blob:], [data:], [http:],
    [https:], [mailto:], [tel:], [/], [./], [../] or [#], the case of
    the ASCII letters set aside; every other input, a null one
    included, gives the empty string, and so does every URL that begins
    with [javascript:] in any case. *)
Theorem markdownUrlTransform_allowed_prefix (url : option jsstring) :
  let trimmed := trim (match url with Some u => u | None => [] end) in
  Markdown.markdownUrlTransform url
  = (if negb (is_empty trimmed)
        && existsb (begins_ignoring_case trimmed) Markdown.allowed_prefixes
     then trimmed else [])
  /\ (if begins_ignoring_case trimmed (lit "javascript:")
      then Markdown.markdownUrlTransform url = []
      else True).
Proof.
  intros trimmed.
  assert (E : Markdown.markdownUrlTransform url
              = if negb (is_empty trimmed)
                   && existsb (begins_ignoring_case trimmed)
                        Markdown.allowed_prefixes
                then trimmed else [])
    by (rewrite <- allowed_prefixes_lower;
        apply markdownUrlTransform_prefix_list).
  split; [exact E|].
  destruct (begins_ignoring_case trimmed (lit "javascript:")) eqn:J;
    [|exact I].
  rewrite E, (javascript_not_allowed trimmed J), andb_false_r. reflexivity.
Qed.

(* ================================================================= *)
(** ** HTML escaping *)

Section EscapeFacts.

Lemma in_replace_char (c x : Z) (rep s : jsstring) :
  In x (replace_char c rep s) -> (In x s /\ x <> c) \/ In x rep.
Proof.
  unfold replace_char. rewrite in_flat_map.
  intros (y & Hy & Hx).
  destruct (Z.eqb_spec y c) as [->|Hne].
  - right; exact Hx.
  - destruct Hx as [<-|[]]. left; split; assumption.
Qed.

End EscapeFacts.

(** C10: the result of [escapeHtml] contains none of [<], [>], the double
    quote and the single quote; so neither does the body that
    [openPdfPrintPreview] writes into the page. *)
Theorem escapeHtml_no_markup (s : jsstring) :
  existsb ExportHelpers.is_markup_char (ExportHelpers.escapeHtml s) = false
  /\ existsb ExportHelpers.is_markup_char (ExportHelpers.escapedBody s) = false.
Proof.
  assert (H : forall t,
    existsb ExportHelpers.is_markup_char (ExportHelpers.escapeHtml t) = false).
  { intros t.
    destruct (existsb ExportHelpers.is_markup_char (ExportHelpers.escapeHtml t))
      eqn:E; [exfalso | reflexivity].
    apply existsb_exists in E. destruct E as (x & Hin & Hx).
    unfold ExportHelpers.escapeHtml in Hin.
    unfold ExportHelpers.is_markup_char in Hx.
    apply in_replace_char in Hin as [[Hin H39]|Hin]; [|simpl in Hin; lia].
    apply in_replace_char in Hin as [[Hin H34]|Hin]; [|simpl in Hin; lia].
    apply in_replace_char in Hin as [[Hin H62]|Hin]; [|simpl in Hin; lia].
    apply in_replace_char in Hin as [[Hin H60]|Hin]; [|simpl in Hin; lia].
    lia. }
  split; [apply H | apply H].
Qed.

(* ================================================================= *)
(** ** The share-URL codec *)

Section CodecFacts.
Import ShareCodec.

Ltac zdm := Z.div_mod_to_equations; lia.

(** Decide the comparisons of the goal that arithmetic settles. *)
Ltac ztests_by tac :=
  repeat match goal with
  | |- context [?a <=? ?b] => destruct (Z.leb_spec a b); try (exfalso; tac)
  | |- context [?a <? ?b] => destruct (Z.ltb_spec a b); try (exfalso; tac)
  | |- context [?a =? ?b] => destruct (Z.eqb_spec a b); try (exfalso; tac)
  end.
Ltac ztests := ztests_by ltac:(lia).

Lemma is_scalar_spec cp :
  is_scalar cp = true <->
  (0 <= cp < 0xD800 \/ 0xDFFF < cp <= 0x10FFFF).
Proof. unfold is_scalar. lia. Qed.

(** *** UTF-8 *)

Lemma utf8_bytes_range cp :
  is_scalar cp = true -> Forall (fun b => 0 <= b < 256) (utf8_bytes cp).
Proof.
  rewrite is_scalar_spec. intros H. unfold utf8_bytes.
  ztests; repeat constructor; zdm.
Qed.

Lemma utf8_lead_ascii b : 0 <= b <= 0x7F -> utf8_lead b = ([b], None).
Proof. intros H. unfold utf8_lead. ztests. reflexivity. Qed.

Lemma utf8_lead_two b :
  0xC2 <= b <= 0xDF ->
  utf8_lead b = ([], Some {| code_point := b mod 32; bytes_left := 1;
                             lower := 0x80; upper := 0xBF |}).
Proof. intros H. unfold utf8_lead. ztests. reflexivity. Qed.

Lemma utf8_lead_three b :
  0xE0 <= b <= 0xEF ->
  utf8_lead b = ([], Some {| code_point := b mod 16; bytes_left := 2;
                             lower := if b =? 0xE0 then 0xA0 else 0x80;
                             upper := if b =? 0xED then 0x9F else 0xBF |}).
Proof.
  intros H. unfold utf8_lead.
  destruct (Z.leb_spec 0 b); [|lia].
  destruct (Z.leb_spec b 0x7F); [lia|].
  destruct (Z.leb_spec 0xC2 b); [|lia].
  destruct (Z.leb_spec b 0xDF); [lia|].
  destruct (Z.leb_spec 0xE0 b); [|lia].
  destruct (Z.leb_spec b 0xEF); [|lia]. reflexivity.
Qed.

Lemma utf8_lead_four b :
  0xF0 <= b <= 0xF4 ->
  utf8_lead b = ([], Some {| code_point := b mod 8; bytes_left := 3;
                             lower := if b =? 0xF0 then 0x90 else 0x80;
                             upper := if b =? 0xF4 then 0x8F else 0xBF |}).
Proof.
  intros H. unfold utf8_lead.
  destruct (Z.leb_spec 0 b); [|lia].
  destruct (Z.leb_spec b 0x7F); [lia|].
  destruct (Z.leb_spec 0xC2 b); [|lia].
  destruct (Z.leb_spec b 0xDF); [lia|].
  destruct (Z.leb_spec 0xE0 b); [|lia].
  destruct (Z.leb_spec b 0xEF); [lia|].
  destruct (Z.leb_spec 0xF0 b); [|lia].
  destruct (Z.leb_spec b 0xF4); [|lia]. reflexivity.
Qed.

Lemma utf8_decode_start b r :
  utf8_decode None (b :: r) =
  let '(out, st) := utf8_lead b in out ++ utf8_decode st r.
Proof. reflexivity. Qed.

(** A byte within the bounds goes on with the pending sequence. *)
Lemma utf8_decode_next cp n lo hi b r :
  lo <= b <= hi ->
  utf8_decode (Some {| code_point := cp; bytes_left := n;
                       lower := lo; upper := hi |}) (b :: r) =
  match n with
  | S (S m) =>
      utf8_decode (Some {| code_point := cp * 64 + b mod 64; bytes_left := S m;
                           lower := 0x80; upper := 0xBF |}) r
  | _ => (cp * 64 + b mod 64) :: utf8_decode None r
  end.
Proof.
  intros H. cbn [utf8_decode lower upper code_point bytes_left].
  destruct (Z.leb_spec lo b); [|lia].
  destruct (Z.leb_spec b hi); [|lia]. reflexivity.
Qed.

Lemma utf8_decode_bytes cp rest :
  is_scalar cp = true ->
  utf8_decode None (utf8_bytes cp ++ rest) = cp :: utf8_decode None rest.
Proof.
  rewrite is_scalar_spec. intros H. unfold utf8_bytes.
  destruct (Z.ltb_spec cp 0x80);
    [|destruct (Z.ltb_spec cp 0x800); [|destruct (Z.ltb_spec cp 0x10000)]];
    cbn [app]; rewrite utf8_decode_start.
  - rewrite utf8_lead_ascii by lia. reflexivity.
  - rewrite utf8_lead_two by zdm. cbn [app].
    rewrite utf8_decode_next by zdm. f_equal. zdm.
  - rewrite utf8_lead_three by zdm. cbn [app].
    rewrite utf8_decode_next by (ztests_by ltac:(zdm); zdm).
    rewrite utf8_decode_next by zdm. f_equal. zdm.
  - rewrite utf8_lead_four by zdm. cbn [app].
    rewrite utf8_decode_next by (ztests_by ltac:(zdm); zdm).
    rewrite !utf8_decode_next by zdm. f_equal. zdm.
Qed.

Lemma utf8_decode_encode cps :
  forallb is_scalar cps = true ->
  utf8_decode None (flat_map utf8_bytes cps) = cps.
Proof.
  induction cps as [|cp cps IH]; [reflexivity|].
  cbn [forallb flat_map]. intros [Hcp Hcps]%andb_prop.
  rewrite utf8_decode_bytes, IH; auto.
Qed.

Lemma utf8_encode_range cps :
  forallb is_scalar cps = true ->
  Forall (fun b => 0 <= b < 256) (flat_map utf8_bytes cps).
Proof.
  induction cps as [|cp cps IH]; [constructor|].
  cbn [forallb flat_map]. intros [Hcp Hcps]%andb_prop.
  apply Forall_app; split; [apply utf8_bytes_range|]; auto.
Qed.

(** Only U+FEFF is encoded with the bytes of the byte order mark. *)
Lemma utf8_bytes_not_bom cp rest :
  is_scalar cp = true -> cp <> 0xFEFF ->
  starts_with [0xEF; 0xBB; 0xBF] (utf8_bytes cp ++ rest) = false.
Proof.
  rewrite is_scalar_spec. intros H Hne. unfold utf8_bytes.
  destruct (Z.ltb_spec cp 0x80);
    [|destruct (Z.ltb_spec cp 0x800); [|destruct (Z.ltb_spec cp 0x10000)]];
    cbn [app starts_with].
  - destruct (Z.eqb_spec 0xEF cp); [lia | reflexivity].
  - destruct (Z.eqb_spec 0xEF (0xC0 + cp / 64)); [zdm | reflexivity].
  - destruct (Z.eqb_spec 0xEF (0xE0 + cp / 4096)); [|reflexivity].
    destruct (Z.eqb_spec 0xBB (0x80 + (cp / 64) mod 64)); [|reflexivity].
    destruct (Z.eqb_spec 0xBF (0x80 + cp mod 64)); [zdm | reflexivity].
  - destruct (Z.eqb_spec 0xEF (0xF0 + cp / 262144)); [zdm | reflexivity].
Qed.

Lemma TextDecoder_decode_no_bom bytes :
  starts_with [0xEF; 0xBB; 0xBF] bytes = false ->
  TextDecoder_decode bytes = flat_map utf16_units (utf8_decode None bytes).
Proof.
  unfold TextDecoder_decode.
  destruct bytes as [|b1 [|b2 [|b3 r]]]; try reflexivity.
  cbn [starts_with]. rewrite andb_true_r.
  rewrite (Z.eqb_sym 0xEF), (Z.eqb_sym 0xBB), (Z.eqb_sym 0xBF), andb_assoc.
  now intros ->.
Qed.

(** *** UTF-16 *)

Lemma to_scalar_values_cons c r :
  to_scalar_values (c :: r) =
  if is_high c then
    match r with
    | d :: r' =>
        if is_low d
        then (0x10000 + (c - 0xD800) * 1024 + (d - 0xDC00)) :: to_scalar_values r'
        else 0xFFFD :: to_scalar_values r
    | [] => [0xFFFD]
    end
  else if is_low c then 0xFFFD :: to_scalar_values r
  else c :: to_scalar_values r.
Proof. reflexivity. Qed.

Lemma well_formed_cons c r :
  well_formed (c :: r) =
  if is_high c then
    match r with
    | d :: r' => is_low d && well_formed r'
    | [] => false
    end
  else (0 <=? c) && (c <=? 0xFFFF) && negb (is_low c) && well_formed r.
Proof. reflexivity. Qed.

Lemma utf16_round_trip_aux s :
  (well_formed s = true ->
   forallb is_scalar (to_scalar_values s) = true
   /\ flat_map utf16_units (to_scalar_values s) = s)
  /\ (forall c, well_formed (c :: s) = true ->
      forallb is_scalar (to_scalar_values (c :: s)) = true
      /\ flat_map utf16_units (to_scalar_values (c :: s)) = c :: s).
Proof.
  induction s as [|d s [IH1 IH2]].
  - split; [now split|].
    intros c. cbn [well_formed to_scalar_values].
    destruct (is_high c) eqn:Hh; [discriminate|].
    unfold is_low in *. intros Hwf.
    destruct (andb_prop _ _ Hwf) as [[[? ?]%andb_prop Hl%negb_true_iff]%andb_prop _].
    rewrite Hl. cbn. unfold is_scalar, utf16_units, is_high in *.
    split; [lia|]. destruct (Z.ltb_spec c 0x10000); [reflexivity | lia].
  - split; [apply IH2|].
    intros c. rewrite (well_formed_cons c), (to_scalar_values_cons c).
    destruct (is_high c) eqn:Hh.
    + intros [Hl Hwf]%andb_prop. rewrite Hl.
      destruct (IH1 Hwf) as [Hsc Hrt].
      cbn [forallb flat_map]. rewrite Hsc, Hrt.
      unfold is_high, is_low, is_scalar, utf16_units in *.
      split; [lia|].
      destruct (Z.ltb_spec (0x10000 + (c - 0xD800) * 1024 + (d - 0xDC00)) 0x10000);
        [lia|].
      cbn [app]. f_equal; [zdm | f_equal; zdm].
    + intros Hwf.
      destruct (andb_prop _ _ Hwf) as [[[? ?]%andb_prop Hl%negb_true_iff]%andb_prop Hwf'].
      rewrite Hl. destruct (IH2 _ Hwf') as [Hsc Hrt].
      cbn [forallb flat_map]. rewrite Hsc, Hrt.
      unfold is_high, is_low, is_scalar, utf16_units in *.
      split; [lia|]. destruct (Z.ltb_spec c 0x10000); [reflexivity | lia].
Qed.

Lemma to_scalar_values_scalar s :
  well_formed s = true -> forallb is_scalar (to_scalar_values s) = true.
Proof. intros H. now apply (utf16_round_trip_aux s). Qed.

Lemma utf16_round_trip s :
  well_formed s = true -> flat_map utf16_units (to_scalar_values s) = s.
Proof. intros H. now apply (utf16_round_trip_aux s). Qed.

(** The first scalar value of a well-formed string is U+FEFF only when
    its first code unit is. *)
Lemma to_scalar_values_head s :
  well_formed s = true -> starts_with [0xFEFF] s = false ->
  match to_scalar_values s with
  | cp :: _ => cp <> 0xFEFF
  | [] => True
  end.
Proof.
  destruct s as [|c s]; [easy|].
  cbn [well_formed to_scalar_values starts_with]. rewrite andb_true_r.
  destruct (is_high c) eqn:Hh.
  - destruct s as [|d s]; [discriminate|].
    intros [Hl _]%andb_prop _. rewrite Hl.
    unfold is_high, is_low in *. lia.
  - intros Hwf Hne.
    destruct (andb_prop _ _ Hwf) as [[_ Hl%negb_true_iff]%andb_prop _].
    rewrite Hl. lia.
Qed.

Lemma TextDecoder_TextEncoder s :
  well_formed s = true -> starts_with [0xFEFF] s = false ->
  TextDecoder_decode (TextEncoder_encode s) = s.
Proof.
  intros Hwf Hbom. unfold TextEncoder_encode.
  pose proof (to_scalar_values_scalar s Hwf) as Hsc.
  pose proof (to_scalar_values_head s Hwf Hbom) as Hhd.
  rewrite TextDecoder_decode_no_bom.
  - rewrite utf8_decode_encode by assumption. now apply utf16_round_trip.
  - destruct (to_scalar_values s) as [|cp cps]; [reflexivity|].
    cbn [flat_map]. cbn [forallb] in Hsc.
    apply andb_prop in Hsc as [Hcp _].
    now apply utf8_bytes_not_bom.
Qed.


(** *** Base64 *)

Lemma b64_value_char v : is_sextet v -> b64_value (b64_char v) = Some v.
Proof.
  unfold is_sextet, b64_char. intros H.
  ztests; unfold b64_value; ztests; cbn [andb]; f_equal; lia.
Qed.

(** A character of the alphabet is none of [=], [-], [_] and no white
    space. *)
Lemma b64_char_plain v :
  is_sextet v ->
  b64_char v <> 61 /\ b64_char v <> 45 /\ b64_char v <> 95
  /\ is_ascii_ws (b64_char v) = false.
Proof.
  unfold is_sextet, b64_char. intros H.
  ztests; unfold is_ascii_ws; ztests; cbn [orb]; repeat split; lia.
Qed.

Lemma sextets_chars vs :
  Forall is_sextet vs -> sextets (map b64_char vs) = Some vs.
Proof.
  induction 1 as [|v vs Hv _ IH]; [reflexivity|].
  cbn [map sextets]. now rewrite b64_value_char, IH.
Qed.

Lemma list_ind3 {A} (P : list A -> Prop) :
  P [] -> (forall a, P [a]) -> (forall a b, P [a; b]) ->
  (forall a b c r, P r -> P (a :: b :: c :: r)) ->
  forall l, P l.
Proof.
  intros H0 H1 H2 H3.
  fix IH 1.
  intros [|a [|b [|c r]]]; [apply H0 | apply H1 | apply H2 | apply H3, IH].
Qed.

(** The shape of [btoa]'s result: characters of the alphabet, whose
    sextets decode to the bytes, then at most two [=] that fill the
    last group of four. *)
Lemma btoa_shape bs :
  Forall is_byte bs ->
  exists vs k,
    btoa bs = map b64_char vs ++ repeat 61 k
    /\ Forall is_sextet vs
    /\ (Z.of_nat (length vs) + Z.of_nat k) mod 4 = 0
    /\ 0 <= Z.of_nat k <= 2
    /\ sextet_bytes vs = bs.
Proof.
  unfold is_byte, is_sextet.
  induction bs as [|a|a b|a b c r IH] using list_ind3; intros Hb.
  - exists [], 0%nat. repeat split; try constructor; reflexivity || lia.
  - inversion_clear Hb as [|? ? Ha _].
    exists [a / 4; a mod 4 * 16], 2%nat.
    split; [reflexivity|]. split; [repeat constructor; zdm|].
    split; [reflexivity|]. split; [lia|].
    cbn [sextet_bytes]. f_equal. zdm.
  - inversion_clear Hb as [|? ? Ha Hb']. inversion_clear Hb' as [|? ? Hb _].
    exists [a / 4; a mod 4 * 16 + b / 16; b mod 16 * 4], 1%nat.
    split; [reflexivity|]. split; [repeat constructor; zdm|].
    split; [reflexivity|]. split; [lia|].
    cbn [sextet_bytes]. f_equal; [zdm | f_equal; zdm].
  - inversion_clear Hb as [|? ? Ha Hb']. inversion_clear Hb' as [|? ? Hb Hb''].
    inversion_clear Hb'' as [|? ? Hc Hr].
    destruct (IH Hr) as (vs & k & Hbtoa & Hvs & Hlen & Hk & Hbytes).
    exists (a / 4 :: a mod 4 * 16 + b / 16 :: b mod 16 * 4 + c / 64 :: c mod 64 :: vs), k.
    split; [cbn [btoa map app]; now rewrite Hbtoa|].
    split; [repeat (constructor; [zdm|]); exact Hvs|].
    split; [cbn [length]; zdm|]. split; [lia|].
    cbn [sextet_bytes]. rewrite Hbytes.
    f_equal; [zdm | f_equal; [zdm | f_equal; zdm]].
Qed.


(** *** The URL-safe alphabet, the padding and [atob] *)

Lemma to_url_app x y : to_url (x ++ y) = to_url x ++ to_url y.
Proof. unfold to_url, replace_char. now rewrite !flat_map_app. Qed.

Lemma to_url_pad k : to_url (repeat 61 k) = repeat 61 k.
Proof. induction k as [|k IH]; [reflexivity|]. cbn [repeat]. now rewrite <- IH at 2. Qed.

Lemma to_url_map s : to_url s = map to_url_char s.
Proof.
  unfold to_url. change (lit "_") with [95]. change (lit "-") with [45].
  now rewrite !replace_char_single, map_map.
Qed.

Lemma from_url_map s : from_url s = map from_url_char s.
Proof.
  unfold from_url. change (lit "/") with [47]. change (lit "+") with [43].
  now rewrite !replace_char_single, map_map.
Qed.

Lemma url_char_round_trip c :
  c <> 61 -> c <> 45 -> c <> 95 ->
  (to_url_char c =? 61) = false /\ from_url_char (to_url_char c) = c.
Proof.
  intros H61 H45 H95. unfold to_url_char, from_url_char.
  destruct (Z.eqb_spec c 43) as [->|H43]; [split; reflexivity|].
  destruct (Z.eqb_spec c 47) as [->|H47]; [split; reflexivity|].
  cbv zeta.
  rewrite (proj2 (Z.eqb_neq c 45) H45), (proj2 (Z.eqb_neq c 95) H95).
  split; [now apply Z.eqb_neq | reflexivity].
Qed.

Lemma to_url_chars vs :
  Forall is_sextet vs ->
  Forall (fun c => (c =? 61) = false) (to_url (map b64_char vs))
  /\ from_url (to_url (map b64_char vs)) = map b64_char vs.
Proof.
  rewrite from_url_map, to_url_map.
  induction 1 as [|v vs Hv _ [IH1 IH2]]; [split; [constructor | reflexivity]|].
  cbn [map]. destruct (b64_char_plain v Hv) as (H61 & H45 & H95 & _).
  destruct (url_char_round_trip _ H61 H45 H95) as [Hu Hr].
  split; [constructor; assumption | f_equal; assumption].
Qed.

Lemma drop_last_eq_snoc s : drop_last_eq (s ++ [61]) = s.
Proof. unfold drop_last_eq. rewrite rev_app_distr. cbn. apply rev_involutive. Qed.

Lemma drop_last_eq_chars vs :
  Forall is_sextet vs -> drop_last_eq (map b64_char vs) = map b64_char vs.
Proof.
  intros Hvs. unfold drop_last_eq.
  destruct (rev (map b64_char vs)) as [|c r] eqn:E; [reflexivity|].
  assert (Hin : In c (map b64_char vs)) by (apply in_rev; rewrite E; now left).
  apply in_map_iff in Hin as (v & <- & Hv).
  rewrite Forall_forall in Hvs.
  destruct (b64_char_plain v (Hvs v Hv)) as (H61 & _).
  destruct (Z.eqb_spec (b64_char v) 61); [contradiction | reflexivity].
Qed.

Lemma drop_pad vs k :
  Forall is_sextet vs -> 0 <= Z.of_nat k <= 2 ->
  drop_last_eq (drop_last_eq (map b64_char vs ++ repeat 61 k)) = map b64_char vs.
Proof.
  intros Hvs Hk. destruct k as [|[|[|k]]]; try lia; cbn [repeat].
  - now rewrite app_nil_r, !drop_last_eq_chars.
  - now rewrite drop_last_eq_snoc, drop_last_eq_chars.
  - change [61; 61] with ([61] ++ [61]).
    now rewrite app_assoc, !drop_last_eq_snoc.
Qed.

Lemma filter_ws_chars vs k :
  Forall is_sextet vs ->
  filter (fun c => negb (is_ascii_ws c)) (map b64_char vs ++ repeat 61 k)
  = map b64_char vs ++ repeat 61 k.
Proof.
  intros Hvs. apply forallb_filter_id.
  rewrite forallb_app. apply andb_true_intro; split.
  - rewrite forallb_forall. intros c (v & <- & Hv)%in_map_iff.
    rewrite Forall_forall in Hvs.
    destruct (b64_char_plain v (Hvs v Hv)) as (_ & _ & _ & ->). reflexivity.
  - rewrite forallb_forall. intros c ->%repeat_spec. reflexivity.
Qed.

Lemma atob_btoa bs : Forall is_byte bs -> atob (btoa bs) = Some bs.
Proof.
  intros Hbs.
  destruct (btoa_shape bs Hbs) as (vs & k & -> & Hvs & Hlen & Hk & Hbytes).
  unfold atob. rewrite filter_ws_chars by assumption.
  rewrite length_app, repeat_length, length_map, Nat2Z.inj_add, Hlen.
  cbn [Z.eqb]. rewrite drop_pad by assumption.
  rewrite length_map.
  destruct (Z.eqb_spec (Z.of_nat (length vs) mod 4) 1) as [E|_]; [exfalso; zdm|].
  now rewrite sextets_chars, <- Hbytes.
Qed.


Lemma map_mod_bytes bs :
  Forall is_byte bs -> map (fun char => char mod 256) bs = bs.
Proof.
  induction 1 as [|b bs Hb _ IH]; [reflexivity|].
  cbn [map]. rewrite IH. f_equal. unfold is_byte in Hb. zdm.
Qed.

Lemma encodeBase64Url_shape s :
  well_formed s = true ->
  exists vs k,
    encodeBase64Url s = to_url (map b64_char vs)
    /\ btoa (TextEncoder_encode s) = map b64_char vs ++ repeat 61 k
    /\ Forall is_sextet vs
    /\ Z.of_nat k = (4 - Z.of_nat (length vs) mod 4) mod 4.
Proof.
  intros Hwf.
  assert (Hbs : Forall is_byte (TextEncoder_encode s))
    by (apply utf8_encode_range, to_scalar_values_scalar, Hwf).
  destruct (btoa_shape _ Hbs) as (vs & k & Hbtoa & Hvs & Hlen & Hk & _).
  exists vs, k. repeat split; try assumption; [|zdm].
  unfold encodeBase64Url. fold (to_url (btoa (TextEncoder_encode s))).
  rewrite Hbtoa, to_url_app, to_url_pad, strip_end_app.
  rewrite (strip_end_all _ (repeat 61 k)).
  - apply strip_end_none. now apply to_url_chars.
  - apply forallb_forall. now intros c ->%repeat_spec.
Qed.

End CodecFacts.

(** C9, as far as it holds: a well-formed string, one in which every
    surrogate is half of a pair, that does not begin with U+FEFF is
    decoded from its encoding unchanged, and the decoding does not
    throw. *)
Theorem decodeBase64Url_encodeBase64Url (s : jsstring) :
  ShareCodec.well_formed s = true ->
  starts_with [0xFEFF] s = false ->
  ShareCodec.decodeBase64Url (ShareCodec.encodeBase64Url s) = Some s.
Proof.
  intros Hwf Hbom.
  destruct (encodeBase64Url_shape s Hwf) as (vs & k & -> & Hbtoa & Hvs & Hk).
  unfold ShareCodec.decodeBase64Url.
  fold (from_url (to_url (map ShareCodec.b64_char vs))).
  rewrite (proj2 (to_url_chars vs Hvs)), length_map, <- Hk, Nat2Z.id, <- Hbtoa.
  assert (Hbs : Forall is_byte (ShareCodec.TextEncoder_encode s))
    by (apply utf8_encode_range, to_scalar_values_scalar, Hwf).
  rewrite atob_btoa, map_mod_bytes by assumption.
  now rewrite TextDecoder_TextEncoder.
Qed.

Lemma decodeBase64Url_encodeBase64Url_witness :
  ShareCodec.decodeBase64Url
    (ShareCodec.encodeBase64Url [0x48; 0xE9; 0x20AC; 0xD83D; 0xDE00; 0xFEFF])
  = Some [0x48; 0xE9; 0x20AC; 0xD83D; 0xDE00; 0xFEFF].
Proof.
  apply decodeBase64Url_encodeBase64Url; reflexivity.
Defined.

(** C9 fails as stated. A string that begins with U+FEFF loses it, since
    [TextDecoder] drops a leading byte order mark; and an unpaired
    surrogate comes back as U+FFFD, since [TextEncoder] replaces it. *)
Lemma decodeBase64Url_encodeBase64Url_counterexample :
  ShareCodec.decodeBase64Url (ShareCodec.encodeBase64Url [0xFEFF; 0x41])
    = Some [0x41]
  /\ ShareCodec.decodeBase64Url (ShareCodec.encodeBase64Url [0xFEFF; 0x41])
    <> Some [0xFEFF; 0x41]
  /\ ShareCodec.decodeBase64Url (ShareCodec.encodeBase64Url [0xD800])
    = Some [0xFFFD].
Proof.
  vm_compute. split; [reflexivity|]. split; [discriminate | reflexivity].
Qed.

(* ================================================================= *)
(** ** The paginator *)

Section SplitFacts.
Import Paging.

(** Passing over the rest of an occurrence. *)
Lemma split_from_skip sep x b :
  split_from sep (length x) (x ++ b) = split_from sep 0 b.
Proof. induction x as [|c x IH]; [reflexivity | exact IH]. Qed.

Lemma split_on_token sep b :
  sep <> [] -> split_on sep (sep ++ b) = [] :: split_on sep b.
Proof.
  destruct sep as [|c t]; [congruence|]. intros _.
  unfold split_on. cbn [app split_from].
  change (c :: t ++ b) with ((c :: t) ++ b). rewrite starts_with_app.
  replace (length (c :: t) - 1)%nat with (length t) by (cbn [length]; lia).
  now rewrite split_from_skip.
Qed.

Lemma split_on_cons sep c s :
  starts_with sep (c :: s) = false ->
  split_on sep (c :: s) = push c (split_on sep s).
Proof. unfold split_on. cbn [split_from]. now intros ->. Qed.

(** Either the separator does not occur, or the string is cut at its
    first occurrence. *)
Lemma split_on_cases sep s :
  sep <> [] ->
  (includes sep s = false /\ split_on sep s = [s])
  \/ (exists a b, s = a ++ sep ++ b /\ includes sep a = false
                  /\ split_on sep s = a :: split_on sep b).
Proof.
  intros Hsep. induction s as [|c s IH].
  - left. split; [now apply includes_nil | reflexivity].
  - destruct (starts_with sep (c :: s)) eqn:E.
    + right. destruct (starts_with_inv _ _ E) as (b & Hb).
      exists [], b. rewrite Hb. cbn [app].
      split; [reflexivity|]. split; [now apply includes_nil|].
      now apply split_on_token.
    + rewrite (split_on_cons _ _ _ E).
      destruct IH as [[Hinc Hsp] | (a & b & Hs & Hinc & Hsp)].
      * left. rewrite includes_cons, E, Hinc, Hsp. now split.
      * right. exists (c :: a), b. rewrite Hsp, Hs. cbn [app push].
        split; [reflexivity|]. split; [|reflexivity].
        rewrite includes_cons, Hinc, orb_false_r.
        destruct (starts_with sep (c :: a)) eqn:E'; [|reflexivity].
        apply (starts_with_extend _ _ (sep ++ b)) in E'.
        rewrite <- app_comm_cons, <- Hs in E'. congruence.
Qed.

(** An induction over the segments of a string. *)
Lemma split_on_ind sep (P : jsstring -> list jsstring -> Prop) :
  sep <> [] ->
  (forall s, includes sep s = false -> P s [s]) ->
  (forall a b, includes sep a = false -> P b (split_on sep b) ->
               P (a ++ sep ++ b) (a :: split_on sep b)) ->
  forall s, P s (split_on sep s).
Proof.
  intros Hsep Hone Hcut s.
  remember (length s) as n eqn:Hn. revert s Hn.
  induction n as [n IH] using lt_wf_ind. intros s Hn.
  destruct (split_on_cases sep s Hsep) as [[Hinc ->] | (a & b & Hs & Hinc & ->)].
  - now apply Hone.
  - rewrite Hs. apply Hcut; [exact Hinc|].
    apply (IH (length b)); [|reflexivity].
    subst n s. rewrite !length_app.
    destruct sep; [congruence | cbn [length]; lia].
Qed.

Lemma split_on_absent sep s : includes sep s = false -> split_on sep s = [s].
Proof.
  intros H. induction s as [|c s IH]; [reflexivity|].
  rewrite includes_cons in H. apply orb_false_elim in H as [H1 H2].
  now rewrite split_on_cons, IH.
Qed.

End SplitFacts.

Section ParagraphFacts.
Import Paging.

Lemma paragraphs_from_nonempty k s : paragraphs_from k s <> [].
Proof.
  revert k; induction s as [|c s IH]; intros k; [discriminate|].
  cbn [paragraphs_from].
  assert (Hpush : push c (paragraphs_from false s) <> [])
    by (specialize (IH false); destruct (paragraphs_from false s);
        [contradiction | discriminate]).
  destruct (is_nl c); [|exact Hpush].
  destruct k; [apply IH|].
  destruct (starts_with_nl s); [discriminate | exact Hpush].
Qed.

(** Outside a run of newlines the two states agree. *)
Lemma paragraphs_from_true s :
  starts_with_nl s = false -> paragraphs_from true s = paragraphs_from false s.
Proof.
  destruct s as [|c s]; [reflexivity|].
  cbn [starts_with_nl paragraphs_from]. now intros ->.
Qed.

Lemma paragraphs_from_cons_nl k s :
  paragraphs_from k (NL :: s) =
  if k then paragraphs_from true s
  else if starts_with_nl s then [] :: paragraphs_from true s
  else push NL (paragraphs_from false s).
Proof. reflexivity. Qed.

Lemma paragraphs_from_cons_other k c s :
  is_nl c = false ->
  paragraphs_from k (c :: s) = push c (paragraphs_from false s).
Proof. cbn [paragraphs_from]. now intros ->. Qed.

Lemma is_nl_NL c : is_nl c = true -> c = NL.
Proof. unfold is_nl. now intros ?%Z.eqb_eq. Qed.

Lemma glue_cons x xs ys : xs <> [] -> glue (x :: xs) ys = x :: glue xs ys.
Proof. destruct xs; [congruence | reflexivity]. Qed.

Lemma glue_push c xs ys :
  xs <> [] -> ys <> [] -> glue (push c xs) ys = push c (glue xs ys).
Proof.
  destruct xs as [|x [|x2 xs]]; [congruence| |]; intros _ Hys.
  - destruct ys; [congruence | reflexivity].
  - reflexivity.
Qed.

Lemma paragraphs_from_app k a y :
  starts_with_nl y = false ->
  paragraphs_from k (a ++ y) =
  glue (paragraphs_from k a) (paragraphs_from false y).
Proof.
  intros Hy. revert k. induction a as [|c a IH]; intros k.
  - cbn [app paragraphs_from glue].
    assert (E : paragraphs_from k y = paragraphs_from false y)
      by (destruct k; [now apply paragraphs_from_true | reflexivity]).
    rewrite E. pose proof (paragraphs_from_nonempty false y).
    destruct (paragraphs_from false y); [contradiction | reflexivity].
  - assert (Hsw : starts_with_nl (a ++ y) = starts_with_nl a)
      by (destruct a; [exact Hy | reflexivity]).
    cbn [app paragraphs_from]. rewrite Hsw.
    assert (Hpush :
      push c (paragraphs_from false (a ++ y)) =
      glue (push c (paragraphs_from false a)) (paragraphs_from false y))
      by (rewrite IH, glue_push; auto using paragraphs_from_nonempty).
    destruct (is_nl c); [|exact Hpush].
    destruct k; [apply IH|].
    destruct (starts_with_nl a); [|exact Hpush].
    rewrite IH, glue_cons; auto using paragraphs_from_nonempty.
Qed.

Lemma fits_push limit c ps :
  ps <> [] -> Forall (fits limit) (push c ps) -> Forall (fits limit) ps.
Proof.
  destruct ps as [|h t]; [congruence|]. intros _. cbn [push].
  inversion_clear 1 as [|? ? Hh Ht]. constructor; [|exact Ht].
  unfold fits in *. cbn [length] in Hh. lia.
Qed.

Lemma fits_glue limit xs ys :
  xs <> [] -> ys <> [] ->
  Forall (fits limit) (glue xs ys) ->
  Forall (fits limit) xs /\ Forall (fits limit) ys.
Proof.
  intros Hxs Hys. induction xs as [|x xs IH]; [congruence|].
  destruct xs as [|x2 xs].
  - destruct ys as [|h t]; [congruence|]. cbn [glue].
    inversion_clear 1 as [|? ? Hh Ht]. unfold fits in *.
    rewrite length_app in Hh.
    split; repeat constructor; try assumption; lia.
  - rewrite glue_cons by discriminate.
    inversion_clear 1 as [|? ? Hx Hrest].
    destruct (IH ltac:(discriminate) Hrest) as [H1 H2].
    split; [constructor|]; assumption.
Qed.

(** The paragraphs of the two sides of a marker are no longer than those
    of the whole. *)
Lemma fits_around_token limit token a b :
  valid_token token = true ->
  Forall (fits limit) (paragraphs (a ++ token ++ b)) ->
  Forall (fits limit) (paragraphs a) /\ Forall (fits limit) (paragraphs b).
Proof.
  unfold valid_token, paragraphs. intros [Hne Hnl]%andb_prop.
  apply negb_true_iff in Hnl.
  assert (Hsw : starts_with_nl (token ++ b) = false).
  { destruct token as [|c t]; [discriminate|].
    cbn [existsb] in Hnl. now apply orb_false_elim in Hnl as [? _]. }
  rewrite (paragraphs_from_app _ _ _ Hsw).
  intros [Ha Htb]%fits_glue; auto using paragraphs_from_nonempty.
  split; [exact Ha|]. clear Hne Hsw Ha.
  induction token as [|c t IH]; [exact Htb|].
  cbn [existsb] in Hnl. apply orb_false_elim in Hnl as [Hc Ht].
  apply (IH Ht). cbn [app] in Htb.
  rewrite paragraphs_from_cons_other in Htb by exact Hc.
  apply fits_push in Htb; auto using paragraphs_from_nonempty.
Qed.

Lemma fits_segments limit token s :
  valid_token token = true ->
  Forall (fits limit) (paragraphs s) ->
  Forall (fun segment => Forall (fits limit) (paragraphs segment))
    (split_on token s).
Proof.
  intros Hv.
  assert (Hne : token <> []) by (intros ->; discriminate).
  apply (split_on_ind token
    (fun s segs => Forall (fits limit) (paragraphs s) ->
       Forall (fun seg => Forall (fits limit) (paragraphs seg)) segs) Hne).
  - intros s0 _ H. now constructor.
  - intros a b _ IH [Ha Hb]%(fits_around_token _ _ _ _ Hv).
    constructor; auto.
Qed.

End ParagraphFacts.

Section AccumulateFacts.
Import Paging.

Lemma fits_accumulate limit current paras :
  fits limit current -> Forall (fits limit) paras ->
  Forall (fits limit) (accumulate limit current paras).
Proof.
  intros Hc Hp. revert current Hc.
  induction Hp as [|p rest Hp _ IH]; intros current Hc; cbn [accumulate].
  - destruct (is_empty current); constructor; [|constructor].
    unfold fits in *. pose proof (trim_length current). lia.
  - destruct (is_empty current); [now apply IH|].
    destruct (Z.leb_spec (Z.of_nat (length (current ++ [NL; NL] ++ p))) limit).
    + now apply IH.
    + constructor; [|now apply IH].
      unfold fits in *. pose proof (trim_length current). lia.
Qed.



End AccumulateFacts.

Section PaginatorTheorems.
Import Paging.


(** C4: the paginator gives at least one page, and for the empty buffer
    the single empty page. *)
Theorem splitContentIntoPages_at_least_one_page
    (token buffer : jsstring) (limit : Z) :
  (1 <= length (splitContentIntoPages token buffer limit))%nat
  /\ splitContentIntoPages token [] limit = [[]].
Proof.
  split; [|reflexivity].
  unfold splitContentIntoPages.
  destruct (flat_map _ (split_on token buffer)); cbn [length]; lia.
Qed.

(** C5: when every paragraph of the buffer is within the limit, so is
    every page. *)
Theorem splitContentIntoPages_within_budget
    (token buffer : jsstring) (limit : Z) :
  valid_token token = true ->
  Forall (fun p => Z.of_nat (length p) <= limit) (paragraphs buffer) ->
  Forall (fun page => Z.of_nat (length page) <= limit)
    (splitContentIntoPages token buffer limit).
Proof.
  intros Hv Hfit. unfold splitContentIntoPages.
  assert (Hpos : 0 <= limit).
  { pose proof (paragraphs_from_nonempty false buffer) as Hne.
    fold (paragraphs buffer) in Hne.
    destruct (paragraphs buffer) as [|p ps]; [contradiction|].
    inversion_clear Hfit as [|? ? Hp _]. lia. }
  assert (Hpages : Forall (fits limit)
    (flat_map
       (fun segment =>
          accumulate limit []
            (filter (fun p => negb (is_blank p)) (paragraphs segment)))
       (split_on token buffer))).
  { apply Forall_flat_map.
    eapply Forall_impl; [|apply (fits_segments limit token buffer Hv Hfit)].
    intros seg Hseg. apply fits_accumulate.
    - unfold fits. cbn [length]. lia.
    - apply Forall_forall. intros p [Hp _]%filter_In.
      rewrite Forall_forall in Hseg. now apply Hseg. }
  destruct (flat_map _ (split_on token buffer)); [|exact Hpages].
  constructor; [cbn [length]; lia | constructor].
Qed.

Lemma starts_with_token_nl token x :
  valid_token token = true -> starts_with token (NL :: x) = false.
Proof.
  unfold valid_token. intros [Hne Hnl]%andb_prop.
  apply negb_true_iff in Hnl.
  destruct token as [|c t]; [discriminate|].
  cbn [existsb] in Hnl. apply orb_false_elim in Hnl as [Hc _].
  cbn [starts_with]. unfold is_nl in Hc. now rewrite Hc.
Qed.

Lemma starts_with_token_char token c x :
  valid_token token = true -> includes token [c] = false ->
  starts_with token (c :: NL :: x) = false.
Proof.
  unfold valid_token. intros [Hne Hnl]%andb_prop Hinc.
  apply negb_true_iff in Hnl.
  destruct token as [|d t]; [discriminate|].
  cbn [includes starts_with] in Hinc. cbn [starts_with].
  destruct (d =? c) eqn:E; [|reflexivity]. cbn [andb] in *.
  destruct t as [|e t]; [discriminate|].
  cbn [existsb] in Hnl. apply orb_false_elim in Hnl as [_ Hnl].
  apply orb_false_elim in Hnl as [He _].
  cbn [starts_with]. unfold is_nl in He. now rewrite He.
Qed.

End PaginatorTheorems.

Section ContentFacts.
Import Paging.

Lemma content_parts_cons h t :
  content_parts (h :: t) =
  (if is_blank h then [] else [trim h]) ++ content_parts t.
Proof. unfold content_parts. cbn [filter]. destruct (is_blank h); reflexivity. Qed.

Lemma content_parts_head h h' t :
  trimEnd h = trimEnd h' -> content_parts (h :: t) = content_parts (h' :: t).
Proof.
  intros H. rewrite !content_parts_cons. unfold is_blank.
  now rewrite (blank_of_trimEnd _ _ H), (trim_of_trimEnd _ _ H).
Qed.

Lemma content_parts_blank parts :
  Forall (fun p => is_blank p = true) parts -> content_parts parts = [].
Proof.
  induction 1 as [|h t Hh _ IH]; [reflexivity|].
  now rewrite content_parts_cons, Hh, IH.
Qed.

Lemma content_parts_push_ws c parts :
  is_ws c = true -> parts <> [] ->
  content_parts (push c parts) = content_parts parts.
Proof.
  intros Hc. destruct parts as [|h t]; [congruence|]. intros _.
  cbn [push]. rewrite !content_parts_cons. unfold is_blank. cbn [forallb].
  now rewrite Hc, (trimEnd_ws_cons c h Hc).
Qed.

Lemma is_ws_NL : is_ws NL = true.
Proof. reflexivity. Qed.

(** The content does not depend on the state in which the scan starts. *)
Lemma content_parts_from_true s :
  content_parts (paragraphs_from true s) = content_parts (paragraphs_from false s).
Proof.
  destruct s as [|c r]; [reflexivity|].
  destruct (is_nl c) eqn:Hc; [|now rewrite !paragraphs_from_cons_other].
  apply is_nl_NL in Hc. subst c. rewrite !paragraphs_from_cons_nl.
  destruct (starts_with_nl r) eqn:Hr.
  - now rewrite content_parts_cons.
  - rewrite content_parts_push_ws;
      auto using is_ws_NL, paragraphs_from_nonempty.
    now rewrite paragraphs_from_true.
Qed.

Lemma same_parts_push extra c xs ys :
  same_parts extra xs ys -> same_parts extra (push c xs) (push c ys).
Proof.
  destruct xs as [|h t], ys as [|h' t']; try contradiction.
  intros [Hh Ht]. split; [now apply trimEnd_cons | exact Ht].
Qed.

Lemma same_parts_content extra xs ys :
  same_parts extra xs ys -> content_parts xs = content_parts ys ++ extra.
Proof.
  destruct xs as [|h t], ys as [|h' t']; try contradiction.
  intros [Hh Ht].
  rewrite (content_parts_head h h' t Hh), !content_parts_cons, Ht.
  now rewrite app_assoc.
Qed.

(** What a text [z] adds to the content of the text it is appended to,
    when [z] begins with white space up to its first paragraph break. *)
Lemma content_app_gen z extra :
  content_parts (paragraphs_from true z) = extra ->
  same_parts extra (paragraphs_from false z) [[]] ->
  forall x,
    content_parts (paragraphs_from true (x ++ z))
    = content_parts (paragraphs_from true x) ++ extra
    /\ same_parts extra (paragraphs_from false (x ++ z)) (paragraphs_from false x).
Proof.
  intros H1 H2. induction x as [|c r [IHA IHB]].
  - split; [exact H1 | exact H2].
  - destruct (is_nl c) eqn:Hc.
    + apply is_nl_NL in Hc. subst c. cbn [app].
      rewrite !paragraphs_from_cons_nl. split; [exact IHA|].
      destruct r as [|d r].
      * cbn [app] in *. cbn [starts_with_nl].
        destruct (starts_with_nl z) eqn:Hz.
        -- split; [reflexivity|]. rewrite H1. reflexivity.
        -- now apply same_parts_push.
      * cbn [app starts_with_nl] in *.
        destruct (is_nl d).
        -- split; [reflexivity | exact IHA].
        -- now apply same_parts_push.
    + cbn [app]. rewrite !paragraphs_from_cons_other by exact Hc.
      split; [|now apply same_parts_push].
      apply same_parts_content. now apply same_parts_push.
Qed.

Lemma paragraphs_from_all_ws k w :
  forallb is_ws w = true ->
  Forall (fun p => is_blank p = true) (paragraphs_from k w).
Proof.
  revert k. induction w as [|c w IH]; intros k; [now repeat constructor|].
  cbn [forallb]. intros [Hc Hw]%andb_prop.
  assert (Hpush : Forall (fun p => is_blank p = true)
                    (push c (paragraphs_from false w))).
  { specialize (IH false Hw).
    pose proof (paragraphs_from_nonempty false w).
    destruct (paragraphs_from false w) as [|h t]; [contradiction|].
    inversion_clear IH as [|? ? Hh Ht]. constructor; [|exact Ht].
    unfold is_blank in *. cbn [forallb]. now rewrite Hc, Hh. }
  cbn [paragraphs_from]. destruct (is_nl c); [|exact Hpush].
  destruct k; [now apply IH|].
  destruct (starts_with_nl w); [|exact Hpush].
  constructor; [reflexivity | now apply IH].
Qed.

(** White space at the end adds nothing. *)
Lemma content_app_ws x w :
  forallb is_ws w = true -> content (x ++ w) = content x.
Proof.
  intros Hw. unfold content, paragraphs.
  destruct (content_app_gen w []) with (x := x) as [_ HB].
  - apply content_parts_blank. now apply paragraphs_from_all_ws.
  - pose proof (paragraphs_from_all_ws false w Hw) as Hall.
    pose proof (paragraphs_from_nonempty false w).
    destruct (paragraphs_from false w) as [|h t]; [contradiction|].
    inversion_clear Hall as [|? ? Hh Ht]. split.
    + unfold trimEnd. rewrite (strip_end_all is_ws h Hh). reflexivity.
    + now rewrite content_parts_blank.
  - apply same_parts_content in HB. now rewrite app_nil_r in HB.
Qed.

(** A blank line between two texts keeps their contents apart. *)
Lemma content_app_blank_line x y :
  content (x ++ [NL; NL] ++ y) = content x ++ content y.
Proof.
  unfold content, paragraphs.
  destruct (content_app_gen ([NL; NL] ++ y)
              (content_parts (paragraphs_from false y))) with (x := x)
    as [_ HB].
  - cbn [app]. rewrite !paragraphs_from_cons_nl.
    apply content_parts_from_true.
  - cbn [app]. rewrite !paragraphs_from_cons_nl. cbn [starts_with_nl].
    change (is_nl NL) with true. cbv iota.
    split; [reflexivity|]. apply content_parts_from_true.
  - now apply same_parts_content in HB.
Qed.

(** White space at the start adds nothing. *)
Lemma content_ws_cons c x : is_ws c = true -> content (c :: x) = content x.
Proof.
  intros Hc. unfold content, paragraphs.
  destruct (is_nl c) eqn:Hnl.
  - apply is_nl_NL in Hnl. subst c. rewrite paragraphs_from_cons_nl.
    destruct (starts_with_nl x).
    + rewrite content_parts_cons. cbn [is_blank forallb app].
      apply content_parts_from_true.
    + apply content_parts_push_ws; auto using paragraphs_from_nonempty.
  - rewrite paragraphs_from_cons_other by exact Hnl.
    apply content_parts_push_ws; auto using paragraphs_from_nonempty.
Qed.

Lemma content_trimStart x : content (trimStart x) = content x.
Proof.
  induction x as [|c x IH]; [reflexivity|].
  cbn [trimStart]. destruct (is_ws c) eqn:Hc; [|reflexivity].
  now rewrite IH, content_ws_cons.
Qed.

(** Trimming keeps the content. *)
Lemma content_trim x : content (trim x) = content x.
Proof.
  rewrite <- (content_trimStart x). unfold trim, trimEnd.
  destruct (strip_end_split is_ws (trimStart x)) as (w & Hs & Hw).
  rewrite Hs at 2. now rewrite content_app_ws.
Qed.

Lemma content_join parts :
  content (join [NL; NL] parts) = flat_map content parts.
Proof.
  induction parts as [|p [|q rest] IH]; [reflexivity| |].
  - cbn [join flat_map]. now rewrite app_nil_r.
  - change (join [NL; NL] (p :: q :: rest))
      with (p ++ [NL; NL] ++ join [NL; NL] (q :: rest)).
    now rewrite content_app_blank_line, IH.
Qed.








End ContentFacts.



Section MarkerFacts.
Import Paging.

Variable token : jsstring.
Hypothesis token_valid : valid_token token = true.

Lemma token_nonempty : token <> [].
Proof. intros E. rewrite E in token_valid. discriminate. Qed.

Lemma starts_with_before_nl a y :
  starts_with token (a ++ NL :: y) = starts_with token a.
Proof.
  pose proof token_valid as Hv. unfold valid_token in Hv.
  apply andb_prop in Hv as [_ Hnl]. apply negb_true_iff in Hnl.
  clear token_valid. revert a.
  induction token as [|c t IH]; intros a; [reflexivity|].
  cbn [existsb] in Hnl. apply orb_false_elim in Hnl as [Hc Ht].
  destruct a as [|d a]; cbn [app starts_with].
  - unfold is_nl in Hc. now rewrite Hc.
  - now rewrite IH.
Qed.

(** A token without newline does not reach across one. *)
Lemma marker_free_around_nl a y :
  marker_free token a -> marker_free token y ->
  marker_free token (a ++ NL :: y).
Proof.
  unfold marker_free. intros Ha Hy. induction a as [|c a IH].
  - cbn [app]. rewrite includes_cons, Hy, orb_false_r.
    now apply starts_with_token_nl.
  - rewrite includes_cons in Ha. apply orb_false_elim in Ha as [H1 H2].
    cbn [app]. rewrite includes_cons, (IH H2), orb_false_r.
    change (c :: a ++ NL :: y) with ((c :: a) ++ NL :: y).
    now rewrite starts_with_before_nl.
Qed.

Lemma marker_free_nil : marker_free token [].
Proof. apply includes_nil, token_nonempty. Qed.

Lemma marker_free_blank_line a y :
  marker_free token a -> marker_free token y ->
  marker_free token (a ++ [NL; NL] ++ y).
Proof.
  intros Ha Hy. apply marker_free_around_nl; [exact Ha|].
  apply (marker_free_around_nl [] y); [apply marker_free_nil | exact Hy].
Qed.

Lemma marker_free_trim x : marker_free token x -> marker_free token (trim x).
Proof.
  unfold marker_free, trim, trimEnd. intros H.
  destruct (trimStart_split x) as (w & Hx & _).
  destruct (strip_end_split is_ws (trimStart x)) as (w' & Hs & _).
  rewrite Hx in H. apply includes_app_false in H as [_ H].
  rewrite Hs in H. now apply includes_app_false in H as [H _].
Qed.

Lemma marker_free_join parts :
  Forall (marker_free token) parts ->
  marker_free token (join [NL; NL] parts).
Proof.
  induction 1 as [|p ps Hp Hps IH]; [apply marker_free_nil|].
  destruct ps as [|q ps]; [exact Hp|].
  change (join [NL; NL] (p :: q :: ps))
    with (p ++ [NL; NL] ++ join [NL; NL] (q :: ps)).
  now apply marker_free_blank_line.
Qed.

(** The first paragraph is a prefix of the text. *)
Lemma paragraphs_head_prefix s :
  exists b, s = hd [] (paragraphs_from false s) ++ b.
Proof.
  induction s as [|c s (b & Hb)]; [now exists []|].
  assert (Hpush : exists b',
    c :: s = hd [] (push c (paragraphs_from false s)) ++ b').
  { pose proof (paragraphs_from_nonempty false s).
    destruct (paragraphs_from false s) as [|h t]; [contradiction|].
    exists b. cbn [push hd] in *. now rewrite <- app_comm_cons, <- Hb. }
  cbn [paragraphs_from]. destruct (is_nl c); [|exact Hpush].
  destruct (starts_with_nl s); [|exact Hpush].
  now exists (c :: s).
Qed.

Lemma marker_free_paragraphs k s :
  marker_free token s ->
  Forall (marker_free token) (paragraphs_from k s).
Proof.
  unfold marker_free. revert k.
  induction s as [|c s IH]; intros k Hs; [now repeat constructor|].
  rewrite includes_cons in Hs. apply orb_false_elim in Hs as [H1 H2].
  assert (Hpush : Forall (marker_free token)
                    (push c (paragraphs_from false s))).
  { specialize (IH false H2).
    destruct (paragraphs_head_prefix s) as (b & Hb).
    pose proof (paragraphs_from_nonempty false s).
    destruct (paragraphs_from false s) as [|h t]; [contradiction|].
    inversion_clear IH as [|? ? Hh Ht]. constructor; [|exact Ht].
    unfold marker_free in *. cbn [hd] in Hb.
    rewrite includes_cons, Hh, orb_false_r.
    destruct (starts_with token (c :: h)) eqn:E; [|reflexivity].
    apply (starts_with_extend _ _ b) in E.
    rewrite <- app_comm_cons, <- Hb in E. congruence. }
  cbn [paragraphs_from]. destruct (is_nl c); [|exact Hpush].
  destruct k; [now apply IH|].
  destruct (starts_with_nl s); [|exact Hpush].
  constructor; [apply marker_free_nil | now apply IH].
Qed.

Lemma marker_free_accumulate limit current paras :
  marker_free token current -> Forall (marker_free token) paras ->
  Forall (marker_free token) (accumulate limit current paras).
Proof.
  intros Hc Hp. revert current Hc.
  induction Hp as [|p rest Hp _ IH]; intros current Hc; cbn [accumulate].
  - destruct (is_empty current); repeat constructor.
    now apply marker_free_trim.
  - destruct (is_empty current); [now apply IH|].
    destruct (Z.of_nat (length (current ++ [NL; NL] ++ p)) <=? limit).
    + apply IH. now apply marker_free_blank_line.
    + constructor; [now apply marker_free_trim | now apply IH].
Qed.

Lemma marker_free_segments s :
  Forall (marker_free token) (split_on token s).
Proof.
  apply (split_on_ind token
    (fun _ segs => Forall (marker_free token) segs) token_nonempty).
  - intros s0 H. now repeat constructor.
  - intros a b Ha IH. now constructor.
Qed.

(** No page holds the marker. *)
Lemma marker_free_pages buffer limit :
  Forall (marker_free token) (splitContentIntoPages token buffer limit).
Proof.
  unfold splitContentIntoPages.
  assert (H : Forall (marker_free token)
    (flat_map
       (fun segment =>
          accumulate limit []
            (filter (fun p => negb (is_blank p)) (paragraphs segment)))
       (split_on token buffer))).
  { apply Forall_flat_map.
    eapply Forall_impl; [|apply marker_free_segments].
    intros seg Hseg. apply marker_free_accumulate.
    - apply marker_free_nil.
    - apply Forall_forall. intros p [Hp _]%filter_In.
      pose proof (marker_free_paragraphs false seg Hseg) as Hall.
      rewrite Forall_forall in Hall. now apply Hall. }
  destruct (flat_map _ (split_on token buffer)); [|exact H].
  repeat constructor. apply marker_free_nil.
Qed.

Lemma Forall_firstn_skipn {A} (P : A -> Prop) n l :
  Forall P l -> Forall P (firstn n l) /\ Forall P (skipn n l).
Proof.
  intros H. revert n. induction H as [|x l Hx Hl IH]; intros n.
  - now rewrite firstn_nil, skipn_nil.
  - destruct n as [|n]; [split; [constructor | now constructor]|].
    cbn [firstn skipn]. destruct (IH n). split; [now constructor | assumption].
Qed.

Lemma marker_free_set_page pages i value :
  Forall (marker_free token) pages -> marker_free token value ->
  Forall (marker_free token) (EditorPanel.set_page pages i value).
Proof.
  intros Hp Hv. unfold EditorPanel.set_page.
  destruct (i <? length pages)%nat.
  - apply Forall_app. split.
    + now apply Forall_firstn_skipn.
    + constructor; [exact Hv | now apply Forall_firstn_skipn].
  - apply Forall_app. split; [exact Hp | now repeat constructor].
Qed.

Lemma marker_free_updatePageContent pages i value :
  Forall (marker_free token) pages -> marker_free token value ->
  marker_free token (EditorPanel.updatePageContent pages i value).
Proof.
  intros Hp Hv. unfold EditorPanel.updatePageContent.
  apply marker_free_join, Forall_forall.
  intros x [(y & <- & Hy)%in_map_iff _]%filter_In.
  apply marker_free_trim.
  pose proof (marker_free_set_page pages i value Hp Hv) as Hall.
  rewrite Forall_forall in Hall. now apply Hall.
Qed.

End MarkerFacts.

Section OneParagraph.
Import Paging.









End OneParagraph.


(** C3: a marker forces a page boundary whatever the limit, and no page
    of any buffer holds the marker. The token is any one that is not
    empty, holds no newline, and is neither of the two contents. *)
Theorem splitContentIntoPages_marker_forces_break
    (token : jsstring) (limit : Z) :
  Paging.valid_token token = true ->
  includes token (lit "A") = false ->
  includes token (lit "B") = false ->
  Paging.splitContentIntoPages token
    (lit "A" ++ [NL; NL] ++ token ++ [NL; NL] ++ lit "B") limit
  = [lit "A"; lit "B"]
  /\ forall buffer,
       Forall (fun page => includes token page = false)
         (Paging.splitContentIntoPages token buffer limit).
Proof.
  intros Hv HA HB. split; [|intros buffer; now apply marker_free_pages].
  assert (Hne : token <> []) by (intros ->; discriminate).
  assert (Hsplit :
    Paging.split_on token
      (lit "A" ++ [NL; NL] ++ token ++ [NL; NL] ++ lit "B")
    = [lit "A" ++ [NL; NL]; [NL; NL] ++ lit "B"]).
  { change (lit "A") with [65]. change (lit "B") with [66]. cbn [app].
    rewrite split_on_cons by now apply starts_with_token_char.
    rewrite !split_on_cons by now apply starts_with_token_nl.
    rewrite split_on_token by exact Hne.
    rewrite (split_on_absent token [NL; NL; 66]); [reflexivity|].
    rewrite !includes_cons, !starts_with_token_nl by exact Hv.
    exact HB. }
  unfold Paging.splitContentIntoPages. rewrite Hsplit. reflexivity.
Qed.

Section EditFacts.

Lemma content_kept_pages parts :
  flat_map content
    (filter (fun page => negb (is_empty page)) (map trim parts))
  = flat_map content parts.
Proof.
  induction parts as [|p ps IH]; [reflexivity|].
  cbn [map filter flat_map]. rewrite <- IH, <- (content_trim p).
  destruct (trim p); reflexivity.
Qed.

Lemma content_updatePageContent pages i value :
  content (EditorPanel.updatePageContent pages i value)
  = flat_map content (EditorPanel.set_page pages i value).
Proof.
  unfold EditorPanel.updatePageContent.
  now rewrite content_join, content_kept_pages.
Qed.

End EditFacts.

(** C1, as far as it holds: the edited content is the pages, each
    trimmed and the empty ones dropped, joined by blank lines, and no
    marker is put back. It has the paragraphs of the pages, the edited
    one replaced; and when the new text of the page holds no marker, the
    new content holds none. *)
Theorem updatePageContent_drops_markers
    (token buffer : jsstring) (pageIndex : nat) (value : jsstring) :
  Paging.valid_token token = true ->
  includes token value = false ->
  includes token (EditorPanel.edit token buffer pageIndex value) = false
  /\ content (EditorPanel.edit token buffer pageIndex value)
     = flat_map content
         (EditorPanel.set_page
            (Paging.splitContentIntoPages token buffer 1800) pageIndex value).
Proof.
  intros Hv Hvalue. unfold EditorPanel.edit.
  split; [|apply content_updatePageContent].
  apply (marker_free_updatePageContent token Hv); [|exact Hvalue].
  apply marker_free_pages, Hv.
Qed.

Lemma updatePageContent_drops_markers_witness :
  includes sample_token (EditorPanel.edit sample_token sample_buffer 0 (lit "A2"))
  = false
  /\ content (EditorPanel.edit sample_token sample_buffer 0 (lit "A2"))
     = [lit "A2"; lit "B"].
Proof.
  apply (updatePageContent_drops_markers sample_token sample_buffer 0 (lit "A2"));
    reflexivity.
Defined.

(** C1 fails as stated: the marker between the two pages of the sample
    buffer is gone after an edit that leaves the text of the first page
    as it was, and the next read gives one page. *)
Lemma updatePageContent_loses_marker_boundary :
  Paging.splitContentIntoPages sample_token sample_buffer 1800
    = [lit "A"; lit "B"]
  /\ EditorPanel.updatePageContent [lit "A"; lit "B"] 0 (lit "A")
    = lit "A" ++ [NL; NL] ++ lit "B"
  /\ EditorPanel.edit sample_token sample_buffer 0 (lit "A")
    = lit "A" ++ [NL; NL] ++ lit "B"
  /\ includes sample_token
       (EditorPanel.edit sample_token sample_buffer 0 (lit "A")) = false
  /\ Paging.splitContentIntoPages sample_token
       (EditorPanel.edit sample_token sample_buffer 0 (lit "A")) 1800
    = [lit "A" ++ [NL; NL] ++ lit "B"].
Proof. repeat split; vm_compute; reflexivity. Qed.

(* ================================================================= *)
(** ** The preflight analyzer *)

(** C7: the analyzer is a total function, and for the empty buffer it
    reports no issue and the severity [none], whatever the marker and
    the nominal page size, if that is not negative. *)
Theorem analyzeDocument_empty (token : jsstring) (pageTarget : Z) :
  0 <= pageTarget ->
  Preflight.analyzeDocument token pageTarget []
  = {| Preflight.report_severity := Preflight.none;
       Preflight.report_issues := [] |}.
Proof.
  intros Hpos. unfold Preflight.analyzeDocument.
  assert (H1 : Preflight.structure_check [] = []) by reflexivity.
  assert (H2 : Preflight.oversized_check token pageTarget [] = []).
  { unfold Preflight.oversized_check.
    change (Paging.splitContentIntoPages token [] pageTarget) with [[] : jsstring].
    cbn [existsb length Z.of_nat]. rewrite orb_false_r.
    destruct (Z.ltb_spec (2 * pageTarget) 0); [lia | reflexivity]. }
  assert (H3 : Preflight.dangling_check token [] = []) by reflexivity.
  now rewrite H1, H2, H3.
Qed.

Lemma analyzeDocument_empty_witness :
  Preflight.analyzeDocument sample_token 1800 []
  = {| Preflight.report_severity := Preflight.none;
       Preflight.report_issues := [] |}.
Proof. apply analyzeDocument_empty. lia. Defined.

(* ================================================================= *)
(** ** The statements on the sample inputs *)

Example content_sample_text :
  content sample_text
  = [lit "# Title"; lit "Para one.";
     lit "Para two," ++ [NL] ++ lit "second line"].
Proof. reflexivity. Qed.

Example splitContentIntoPages_sample_text :
  Paging.splitContentIntoPages sample_token sample_text 20
  = [lit "# Title " ++ [NL; NL] ++ lit " Para one.";
     lit "Para two," ++ [NL] ++ lit "second line"].
Proof. reflexivity. Qed.


Lemma splitContentIntoPages_marker_forces_break_witness :
  Paging.splitContentIntoPages sample_token sample_buffer 1000
  = [lit "A"; lit "B"].
Proof.
  exact (proj1 (splitContentIntoPages_marker_forces_break sample_token 1000
                  eq_refl eq_refl eq_refl)).
Defined.

Lemma splitContentIntoPages_within_budget_witness :
  Forall (fun page => Z.of_nat (length page) <= 22)
    (Paging.splitContentIntoPages sample_token sample_text 22).
Proof.
  apply (splitContentIntoPages_within_budget sample_token sample_text 22).
  - reflexivity.
  - vm_compute. repeat (constructor; [discriminate|]). constructor.
Defined.


Example one_paragraph_per_page_sample_text :
  one_paragraph_per_page sample_token sample_text
  = [lit "# Title"; lit "Para one.";
     lit "Para two," ++ [NL] ++ lit "second line"].
Proof. reflexivity. Qed.

Example markdownUrlTransform_examples :
  Markdown.markdownUrlTransform (Some (lit "  HTTPS://example.org/a "))
    = lit "HTTPS://example.org/a"
  /\ Markdown.markdownUrlTransform (Some (lit "javascript:alert(1)")) = []
  /\ Markdown.markdownUrlTransform (Some (lit "   ")) = []
  /\ Markdown.markdownUrlTransform None = []
  /\ Markdown.markdownUrlTransform (Some (lit "../img/a.png"))
    = lit "../img/a.png".
Proof. repeat split; reflexivity. Qed.

Example escapeHtml_example :
  ExportHelpers.escapeHtml (lit "<a href='x'>&</a>")
  = lit "&lt;a href=&#39;x&#39;&gt;&amp;&lt;/a&gt;".
Proof. reflexivity. Qed.

(* ================================================================= *)
(** ** The preview panel *)

Section PreviewFacts.
Import PreviewPanel.

Lemma targetPages_range fb pc : 2 <= targetPages fb pc <= 24.
Proof. unfold targetPages. destruct fb; lia. Qed.

Lemma chunk_at_nth chunks i :
  chunk_at chunks i =
  if (0 <=? i) && (i <? Z.of_nat (length chunks))
  then Some (nth (Z.to_nat i) chunks []) else None.
Proof.
  unfold chunk_at.
  destruct (Z.ltb_spec i 0), (Z.leb_spec 0 i); try lia; cbn [andb];
    [reflexivity|].
  destruct (Z.ltb_spec i (Z.of_nat (length chunks))).
  - apply nth_error_nth'. lia.
  - apply nth_error_None. lia.
Qed.

Lemma pageChunks_size baseChunks fb pc :
  Z.of_nat (length (pageChunks baseChunks fb pc)) = targetPages fb pc.
Proof.
  pose proof (targetPages_range fb pc) as Ht.
  unfold pageChunks.
  destruct (Z.leb_spec (targetPages fb pc) (Z.of_nat (length baseChunks))).
  - rewrite length_firstn. lia.
  - rewrite length_app, repeat_length. lia.
Qed.

Lemma padded_nth (baseChunks : list jsstring) t i :
  0 <= i < t ->
  nth (Z.to_nat i)
    (if t <=? Z.of_nat (length baseChunks)
     then firstn (Z.to_nat t) baseChunks
     else baseChunks ++ repeat [] (Z.to_nat (t - Z.of_nat (length baseChunks))))
    []
  = nth (Z.to_nat i) baseChunks [].
Proof.
  intros Hi.
  destruct (Z.leb_spec t (Z.of_nat (length baseChunks))).
  - rewrite nth_firstn.
    destruct (Nat.ltb_spec (Z.to_nat i) (Z.to_nat t)); [reflexivity | lia].
  - destruct (Z.lt_ge_cases i (Z.of_nat (length baseChunks))).
    + apply app_nth1. lia.
    + rewrite app_nth2 by lia. rewrite nth_repeat.
      symmetry. apply nth_overflow. lia.
Qed.

Lemma pageMarkdown_nth chunks i :
  pageMarkdown chunks i = if 0 <=? i then nth (Z.to_nat i) chunks [] else [].
Proof.
  unfold pageMarkdown. rewrite chunk_at_nth.
  destruct (Z.leb_spec 0 i); [|reflexivity]. cbn [andb].
  destruct (Z.ltb_spec i (Z.of_nat (length chunks))); [reflexivity|].
  symmetry. apply nth_overflow. lia.
Qed.

Lemma pageChunks_entry baseChunks fb pc i :
  chunk_at (pageChunks baseChunks fb pc) i
  = if (0 <=? i) && (i <? targetPages fb pc)
    then Some (match chunk_at baseChunks i with
               | Some page => page
               | None => []
               end)
    else None.
Proof.
  rewrite chunk_at_nth, pageChunks_size.
  destruct (Z.leb_spec 0 i); [|reflexivity].
  destruct (Z.ltb_spec i (targetPages fb pc)); [|reflexivity].
  cbn [andb]. f_equal. unfold pageChunks. rewrite padded_nth by lia.
  fold (pageMarkdown baseChunks i). rewrite pageMarkdown_nth.
  now destruct (Z.leb_spec 0 i); [|lia].
Qed.

Lemma parseSingleImageMarkdown_truthy s url :
  parseSingleImageMarkdown s = Some url -> is_empty url = false.
Proof.
  unfold parseSingleImageMarkdown.
  destruct (is_empty (trim s)); [discriminate|].
  destruct (JsStringMore.strip_prefix (lit "![") (trim s))
    as [r|]; [|discriminate].
  destruct (JsStringMore.strip_prefix (lit "](") _) as [r1|]; [|discriminate].
  destruct (JsStringMore.span (fun c => negb ((c =? 41) || is_ws c)) r1)
    as [u r2].
  destruct (is_empty u) eqn:He; [discriminate|].
  destruct (JsStringMore.string_eqb r2 (lit ")"));
    [now intros [= <-]|].
  destruct (JsStringMore.span is_ws r2) as [spaces r3].
  destruct (is_empty spaces); [discriminate|].
  destruct (JsStringMore.strip_prefix [34] r3) as [r4|]; [|discriminate].
  destruct (JsStringMore.strip_prefix [34] _) as [r5|]; [|discriminate].
  destruct (JsStringMore.string_eqb r5 (lit ")")); [|discriminate].
  now intros [= <-].
Qed.

End PreviewFacts.

Section NumberFacts.
Import QArith_base PreviewPanel.
Open Scope Z_scope.

Lemma Qmax_inject_Z a b :
  Qminmax.Qmax (inject_Z a) (inject_Z b) = inject_Z (Z.max a b).
Proof.
  unfold Qminmax.Qmax, GenericMinMax.gmax, Qcompare, Z.max. cbn.
  rewrite !Z.mul_1_r. now destruct (a ?= b).
Qed.

Lemma Qmin_inject_Z a b :
  Qminmax.Qmin (inject_Z a) (inject_Z b) = inject_Z (Z.min a b).
Proof.
  unfold Qminmax.Qmin, GenericMinMax.gmin, Qcompare, Z.min. cbn.
  rewrite !Z.mul_1_r. now destruct (a ?= b).
Qed.

Lemma Qfloor_minus_inject_Z q z :
  Qround.Qfloor (Qminus q (inject_Z z)) = Qround.Qfloor q - z.
Proof.
  destruct q as [n d]. unfold Qminus, Qplus, Qopp, Qround.Qfloor. cbn.
  rewrite Pos.mul_1_r, Z.mul_1_r, Z.div_add by lia. lia.
Qed.

Lemma truncate_nonneg q :
  Qle (inject_Z 0) q -> JsNumber.truncate q = Qround.Qfloor q.
Proof.
  intros H. unfold JsNumber.truncate.
  now apply Qle_bool_iff in H as ->.
Qed.

Lemma Qfloor_lower z q : Qle (inject_Z z) q -> z <= Qround.Qfloor q.
Proof.
  intros H. rewrite <- (Qround.Qfloor_Z z). now apply Qround.Qfloor_resp_le.
Qed.

Lemma Qfloor_upper z q : Qle q (inject_Z z) -> Qround.Qfloor q <= z.
Proof.
  intros H. rewrite <- (Qround.Qfloor_Z z).
  now apply Qround.Qfloor_resp_le.
Qed.

Lemma targetPages_number_int fb z :
  targetPages_number fb (JsNumber.of_int z)
  = JsNumber.of_int (targetPages fb z).
Proof.
  unfold targetPages_number, targetPages, JsNumber.of_int.
  destruct fb; [|reflexivity]. cbn [JsNumber.math_max JsNumber.math_min].
  now rewrite Qmax_inject_Z, Qmin_inject_Z.
Qed.

Lemma targetPages_number_cases fb n :
  if fb && JsNumber.is_nan n
  then targetPages_number fb n = JsNumber.NaN
  else exists t, targetPages_number fb n = JsNumber.Finite t
                 /\ Qle (inject_Z 2) t /\ Qle t (inject_Z 24).
Proof.
  unfold targetPages_number, JsNumber.of_int.
  destruct fb; cbn [andb].
  - destruct n as [q| | |];
      cbn [JsNumber.is_nan JsNumber.math_max JsNumber.math_min];
      [| | |reflexivity]; eexists; (split; [reflexivity|]); split.
    + apply Qminmax.Q.min_glb; [apply Qminmax.Q.le_max_r|discriminate].
    + apply Qminmax.Q.le_min_r.
    + discriminate.
    + apply Qle_refl.
    + apply Qminmax.Q.min_glb; [apply Qle_refl|discriminate].
    + apply Qminmax.Q.le_min_r.
  - eexists; split; [reflexivity|]. split; [apply Qle_refl|discriminate].
Qed.

(** The pages for a finite [targetPages] between 2 and 24: as many as
    its integer part. *)
Lemma pageChunks_finite base t :
  Qle (inject_Z 2) t -> Qle t (inject_Z 24) ->
  let len := JsNumber.of_int (Z.of_nat (length base)) in
  exists chunks,
    (if JsNumber.ge len (JsNumber.Finite t)
     then Some (slice_from_start base (JsNumber.Finite t))
     else option_map (app base)
            (empty_pages (JsNumber.sub (JsNumber.Finite t) len)))
    = Some chunks
    /\ Z.of_nat (length chunks) = Qround.Qfloor t
    /\ chunks = (if Qround.Qfloor t <=? Z.of_nat (length base)
                 then firstn (Z.to_nat (Qround.Qfloor t)) base
                 else base ++ repeat []
                        (Z.to_nat (Qround.Qfloor t - Z.of_nat (length base)))).
Proof.
  intros H2 H24 len. subst len. unfold JsNumber.of_int.
  cbn [JsNumber.ge JsNumber.sub].
  pose proof (Qfloor_lower _ _ H2) as Hlo.
  pose proof (Qfloor_upper _ _ H24) as Hhi.
  assert (H0 : Qle (inject_Z 0) t).
  { eapply Qle_trans; [|exact H2]. discriminate. }
  destruct (Qle_bool t (inject_Z (Z.of_nat (length base)))) eqn:E.
  - apply Qle_bool_iff in E. pose proof (Qfloor_upper _ _ E) as Hle.
    eexists; split; [reflexivity|].
    unfold slice_from_start. rewrite (truncate_nonneg _ H0).
    destruct (Z.ltb_spec (Qround.Qfloor t) 0); [lia|].
    destruct (Z.leb_spec (Qround.Qfloor t) (Z.of_nat (length base))); [|lia].
    split; [|reflexivity]. rewrite length_firstn. lia.
  - assert (Hlt : Qlt (inject_Z (Z.of_nat (length base))) t).
    { apply Qnot_le_lt. intros H. apply Qle_bool_iff in H. congruence. }
    pose proof (Qfloor_lower _ _ (Qlt_le_weak _ _ Hlt)) as Hge.
    assert (Hd : Qle (inject_Z 0)
                   (Qminus t (inject_Z (Z.of_nat (length base))))).
    { apply Qlt_le_weak in Hlt. revert Hlt. destruct t as [a d].
      unfold Qle, Qminus, Qplus, Qopp. cbn. intros Hlt.
      rewrite !Z.mul_1_r in *. lia. }
    unfold empty_pages.
    rewrite (truncate_nonneg _ Hd), Qfloor_minus_inject_Z.
    destruct (Z.leb_spec (2 ^ 32)
                (Qround.Qfloor t - Z.of_nat (length base))); [lia|].
    cbn [option_map]. eexists; split; [reflexivity|].
    split; [rewrite length_app, repeat_length; lia|].
    destruct (Z.leb_spec (Qround.Qfloor t) (Z.of_nat (length base)));
      [|reflexivity].
    assert (Qround.Qfloor t = Z.of_nat (length base)) as -> by lia.
    rewrite Z.sub_diag, Nat2Z.id, firstn_all. cbn [Z.to_nat repeat].
    apply app_nil_r.
Qed.

(** The pages for any number: with full-book preview on and NaN asked
    for, the pages of the content as they are; otherwise [targetPages]
    is finite, between 2 and 24, and the pages are the content cut or
    padded to its integer part. *)
Lemma pageChunks_number_cases base fb n :
  exists chunks,
    pageChunks_number base fb n = Some chunks
    /\ if fb && JsNumber.is_nan n
       then targetPages_number fb n = JsNumber.NaN /\ chunks = base
       else exists t,
              targetPages_number fb n = JsNumber.Finite t
              /\ Qle (inject_Z 2) t /\ Qle t (inject_Z 24)
              /\ Z.of_nat (length chunks) = Qround.Qfloor t
              /\ chunks
                 = (if Qround.Qfloor t <=? Z.of_nat (length base)
                    then firstn (Z.to_nat (Qround.Qfloor t)) base
                    else base ++ repeat []
                           (Z.to_nat (Qround.Qfloor t
                                      - Z.of_nat (length base)))).
Proof.
  pose proof (targetPages_number_cases fb n) as Ht.
  unfold pageChunks_number.
  destruct (fb && JsNumber.is_nan n).
  - rewrite Ht. cbn. exists base. rewrite app_nil_r. now repeat split.
  - destruct Ht as (t & -> & H2 & H24).
    destruct (pageChunks_finite base t H2 H24) as (chunks & E & Hl & Hc).
    exists chunks. split; [exact E|]. exists t. now repeat split.
Qed.

Lemma pageChunks_number_int base fb z :
  pageChunks_number base fb (JsNumber.of_int z)
  = Some (pageChunks base fb z).
Proof.
  pose proof (targetPages_range fb z) as Hr.
  unfold pageChunks_number, pageChunks.
  rewrite targetPages_number_int.
  assert (H2 : Qle (inject_Z 2) (inject_Z (targetPages fb z)))
    by (rewrite <- Zle_Qle; lia).
  assert (H24 : Qle (inject_Z (targetPages fb z)) (inject_Z 24))
    by (rewrite <- Zle_Qle; lia).
  destruct (pageChunks_finite base _ H2 H24) as (chunks & E & _ & Hc).
  cbv zeta in E |- *.
  change (JsNumber.of_int (targetPages fb z))
    with (JsNumber.Finite (inject_Z (targetPages fb z))).
  rewrite E, Hc. now rewrite Qround.Qfloor_Z.
Qed.

End NumberFacts.

(** X1: for an integer [previewPageCount] the preview has exactly
    [targetPages] pages, between 2 and 24, and the pages are those that
    the expression on numbers gives. For any number: when full-book
    preview is on and the count is NaN, [targetPages] is NaN and the
    preview has the pages of the content as they are, however many;
    otherwise [targetPages] is finite, between 2 and 24, and the preview
    has as many pages as its integer part, so that a count with a
    fraction gives the pages of the count without it. *)
Theorem pageChunks_length
    (baseChunks : list jsstring) (fullBookPreview : bool)
    (previewPageCount : Z) (anyPageCount : JsNumber.number) :
  (Z.of_nat (length
     (PreviewPanel.pageChunks baseChunks fullBookPreview previewPageCount))
   = PreviewPanel.targetPages fullBookPreview previewPageCount
   /\ 2 <= PreviewPanel.targetPages fullBookPreview previewPageCount <= 24)
  /\ PreviewPanel.pageChunks_number baseChunks fullBookPreview
       (JsNumber.of_int previewPageCount)
     = Some (PreviewPanel.pageChunks baseChunks fullBookPreview
               previewPageCount)
  /\ exists chunks,
       PreviewPanel.pageChunks_number baseChunks fullBookPreview anyPageCount
       = Some chunks
       /\ if fullBookPreview && JsNumber.is_nan anyPageCount
          then PreviewPanel.targetPages_number fullBookPreview anyPageCount
               = JsNumber.NaN
               /\ chunks = baseChunks
          else exists t,
                 PreviewPanel.targetPages_number fullBookPreview anyPageCount
                 = JsNumber.Finite t
                 /\ QArith_base.Qle (QArith_base.inject_Z 2) t
                 /\ QArith_base.Qle t (QArith_base.inject_Z 24)
                 /\ Z.of_nat (length chunks) = Qround.Qfloor t
                 /\ 2 <= Qround.Qfloor t <= 24.
Proof.
  split; [split; [apply pageChunks_size | apply targetPages_range]|].
  split; [apply pageChunks_number_int|].
  destruct (pageChunks_number_cases baseChunks fullBookPreview anyPageCount)
    as (chunks & E & H).
  exists chunks. split; [exact E|].
  destruct (fullBookPreview && JsNumber.is_nan anyPageCount); [exact H|].
  destruct H as (t & Et & H2 & H24 & Hl & _).
  exists t. repeat split; try assumption.
  - now apply Qfloor_lower.
  - now apply Qfloor_upper.
Qed.

(** X2: what the preview holds at an index. In the array of pages, for
    an integer count and for any number as count, the entry at an index
    within the array is the page of the content with the same index, or
    the empty page when the content has none, and there is no entry at
    an index outside of it. On the screen, when there is content, a page
    shows its own entry when that is not empty: the image when the entry
    is one image, its text otherwise; a page whose entry is empty or
    missing, as every page added to reach the count is, shows the text
    of the first page of the content. Without content the page shows
    the invitation to add some. *)
Theorem pageChunks_chunk_at
    (baseChunks : list jsstring) (fullBookPreview : bool)
    (previewPageCount : Z) (anyPageCount : JsNumber.number)
    (pageIndex : Z) :
  PreviewPanel.chunk_at
    (PreviewPanel.pageChunks baseChunks fullBookPreview previewPageCount)
    pageIndex
  = (if (0 <=? pageIndex)
        && (pageIndex <? PreviewPanel.targetPages fullBookPreview previewPageCount)
     then Some (match PreviewPanel.chunk_at baseChunks pageIndex with
                | Some page => page
                | None => []
                end)
     else None)
  /\ exists chunks,
       PreviewPanel.pageChunks_number baseChunks fullBookPreview anyPageCount
       = Some chunks
       /\ PreviewPanel.chunk_at chunks pageIndex
          = (if (0 <=? pageIndex) && (pageIndex <? Z.of_nat (length chunks))
             then Some (PreviewPanel.pageMarkdown baseChunks pageIndex)
             else None)
       /\ PreviewPanel.page_content true chunks pageIndex
          = (let own :=
               if pageIndex <? Z.of_nat (length chunks)
               then PreviewPanel.pageMarkdown baseChunks pageIndex
               else [] in
             match PreviewPanel.parseSingleImageMarkdown own with
             | Some src => PreviewPanel.ImportedImage src
             | None =>
                 PreviewPanel.MarkdownText
                   (if negb (is_empty own) then own
                    else PreviewPanel.pageMarkdown baseChunks 0)
             end)
       /\ PreviewPanel.page_content false chunks pageIndex
          = PreviewPanel.Placeholder.
Proof.
  split; [apply pageChunks_entry|].
  destruct (pageChunks_number_cases baseChunks fullBookPreview anyPageCount)
    as (chunks & E & H).
  exists chunks. split; [exact E|].
  assert (Hnth : forall i, 0 <= i < Z.of_nat (length chunks) ->
            nth (Z.to_nat i) chunks [] = nth (Z.to_nat i) baseChunks []).
  { intros i Hi.
    destruct (fullBookPreview && JsNumber.is_nan anyPageCount).
    - now destruct H as [_ ->].
    - destruct H as (t & _ & _ & _ & Hl & ->). apply padded_nth.
      rewrite <- Hl. exact Hi. }
  assert (Hat : PreviewPanel.chunk_at chunks pageIndex
          = (if (0 <=? pageIndex) && (pageIndex <? Z.of_nat (length chunks))
             then Some (PreviewPanel.pageMarkdown baseChunks pageIndex)
             else None)).
  { rewrite chunk_at_nth, pageMarkdown_nth.
    destruct (Z.leb_spec 0 pageIndex); [|reflexivity].
    destruct (Z.ltb_spec pageIndex (Z.of_nat (length chunks)));
      [|reflexivity].
    cbn [andb]. f_equal. apply Hnth. lia. }
  assert (Hown : PreviewPanel.pageMarkdown chunks pageIndex
          = if pageIndex <? Z.of_nat (length chunks)
            then PreviewPanel.pageMarkdown baseChunks pageIndex else []).
  { unfold PreviewPanel.pageMarkdown at 1. rewrite Hat.
    destruct (Z.leb_spec 0 pageIndex),
      (Z.ltb_spec pageIndex (Z.of_nat (length chunks)));
      cbn [andb]; try reflexivity.
    rewrite pageMarkdown_nth.
    now destruct (Z.leb_spec 0 pageIndex); [lia|]. }
  assert (Hfirst : match PreviewPanel.chunk_at chunks 0 with
                   | Some page => page
                   | None => []
                   end = PreviewPanel.pageMarkdown baseChunks 0).
  { fold (PreviewPanel.pageMarkdown chunks 0).
    rewrite !pageMarkdown_nth. cbn [Z.leb Z.compare Z.to_nat].
    destruct (Z.lt_ge_cases 0 (Z.of_nat (length chunks))) as [Hl|Hl].
    - apply (Hnth 0). lia.
    - destruct chunks; [|cbn [length] in Hl; lia].
      destruct (fullBookPreview && JsNumber.is_nan anyPageCount).
      + now destruct H as [_ <-].
      + destruct H as (t & _ & H2 & _ & Hl' & _).
        apply Qfloor_lower in H2. cbn [length] in Hl'. lia. }
  split; [exact Hat|]. split; [|reflexivity].
  unfold PreviewPanel.page_content. rewrite Hown, Hfirst. cbv zeta.
  destruct (PreviewPanel.parseSingleImageMarkdown _) as [src|] eqn:Ep;
    [|reflexivity].
  now rewrite (parseSingleImageMarkdown_truthy _ _ Ep).
Qed.

Example pageChunks_number_fraction :
  PreviewPanel.pageChunks_number
    [lit "a"; lit "b"; lit "c"; lit "d"] true
    (JsNumber.Finite (QArith_base.Qmake 7 2))
  = Some [lit "a"; lit "b"; lit "c"].
Proof. reflexivity. Qed.

Example pageChunks_number_nan :
  PreviewPanel.pageChunks_number [lit "a"] true JsNumber.NaN
  = Some [lit "a"]
  /\ PreviewPanel.pageChunks_number [lit "a"] false JsNumber.NaN
     = Some [lit "a"; []].
Proof. split; reflexivity. Qed.

Example page_content_added_page :
  PreviewPanel.page_content true
    (PreviewPanel.pageChunks [lit "a"] true 3) 2
  = PreviewPanel.MarkdownText (lit "a").
Proof. reflexivity. Qed.

(** X3: going to the previous or to the next page, and the adjustment
    after a change of the number of pages, keep the current page between
    0 and the last index. *)
Theorem navigation_stays_in_range
    (spreadView : bool) (maxPageIndex currentPage newMaxPageIndex : Z) :
  0 <= currentPage <= maxPageIndex ->
  0 <= newMaxPageIndex ->
  0 <= PreviewPanel.goPrev spreadView currentPage <= maxPageIndex
  /\ 0 <= PreviewPanel.goNext spreadView maxPageIndex currentPage
       <= maxPageIndex
  /\ 0 <= PreviewPanel.clampPage newMaxPageIndex currentPage
       <= newMaxPageIndex.
Proof.
  unfold PreviewPanel.goPrev, PreviewPanel.goNext, PreviewPanel.clampPage.
  destruct spreadView; lia.
Qed.

Lemma navigation_stays_in_range_witness :
  0 <= PreviewPanel.goPrev true 3 <= 3
  /\ 0 <= PreviewPanel.goNext true 3 3 <= 3
  /\ 0 <= PreviewPanel.clampPage 1 3 <= 1.
Proof. apply (navigation_stays_in_range true 3 3 1); lia. Defined.

(** X4: with the current page in range, every page that is drawn exists
    in the preview, and the current page is among those drawn; in spread
    view the left page has an even index. *)
Theorem drawn_pages_exist
    (baseChunks : list jsstring) (fullBookPreview : bool)
    (previewPageCount : Z) (spreadView : bool) (currentPage : Z) :
  let chunks :=
    PreviewPanel.pageChunks baseChunks fullBookPreview previewPageCount in
  0 <= currentPage <= PreviewPanel.maxPageIndex chunks ->
  Forall (fun pageIndex => PreviewPanel.chunk_at chunks pageIndex <> None)
    (PreviewPanel.drawn_pages spreadView
       (PreviewPanel.maxPageIndex chunks) currentPage)
  /\ In currentPage
       (PreviewPanel.drawn_pages spreadView
          (PreviewPanel.maxPageIndex chunks) currentPage)
  /\ (if spreadView
      then PreviewPanel.leftPageIndex spreadView currentPage mod 2 = 0
      else PreviewPanel.leftPageIndex spreadView currentPage = currentPage).
Proof.
  intros chunks Hp.
  pose proof (pageChunks_size baseChunks fullBookPreview previewPageCount)
    as Hlen.
  pose proof (targetPages_range fullBookPreview previewPageCount) as Ht.
  fold chunks in Hlen.
  unfold PreviewPanel.maxPageIndex in *.
  unfold PreviewPanel.drawn_pages, PreviewPanel.leftPageIndex,
    PreviewPanel.rightPageIndex.
  assert (Hdef : forall i, 0 <= i < Z.of_nat (length chunks) ->
                   PreviewPanel.chunk_at chunks i <> None).
  { intros i Hi. rewrite chunk_at_nth.
    destruct (Z.leb_spec 0 i), (Z.ltb_spec i (Z.of_nat (length chunks)));
      try lia. discriminate. }
  destruct spreadView.
  - split; [|split].
    + repeat constructor; apply Hdef; Z.div_mod_to_equations; lia.
    + cbn [In].
      assert (currentPage = Z.max 0 (currentPage / 2 * 2)
              \/ currentPage = Z.max 0 (currentPage / 2 * 2) + 1)
        as [E|E] by (Z.div_mod_to_equations; lia).
      * now left.
      * right; left. lia.
    + Z.div_mod_to_equations; lia.
  - split; [|split].
    + repeat constructor. apply Hdef. lia.
    + now left.
    + reflexivity.
Qed.

Lemma drawn_pages_exist_witness :
  Forall (fun pageIndex =>
            PreviewPanel.chunk_at
              (PreviewPanel.pageChunks [lit "a"; lit "b"; lit "c"] true 5)
              pageIndex <> None)
    (PreviewPanel.drawn_pages true
       (PreviewPanel.maxPageIndex
          (PreviewPanel.pageChunks [lit "a"; lit "b"; lit "c"] true 5)) 4)
  /\ In 4
       (PreviewPanel.drawn_pages true
          (PreviewPanel.maxPageIndex
             (PreviewPanel.pageChunks [lit "a"; lit "b"; lit "c"] true 5)) 4)
  /\ PreviewPanel.leftPageIndex true 4 mod 2 = 0.
Proof.
  apply (drawn_pages_exist [lit "a"; lit "b"; lit "c"] true 5 true 4).
  vm_compute. split; discriminate.
Defined.

(** X5: away from the two ends, going to the next page and back, or
    back and to the next page, returns to the same page. *)
Theorem goPrev_goNext_inverse
    (spreadView : bool) (maxPageIndex currentPage : Z) :
  (if spreadView then 2 else 1) <= currentPage ->
  currentPage + (if spreadView then 2 else 1) <= maxPageIndex ->
  PreviewPanel.goPrev spreadView
    (PreviewPanel.goNext spreadView maxPageIndex currentPage)
  = currentPage
  /\ PreviewPanel.goNext spreadView maxPageIndex
       (PreviewPanel.goPrev spreadView currentPage)
     = currentPage.
Proof.
  unfold PreviewPanel.goPrev, PreviewPanel.goNext.
  destruct spreadView; lia.
Qed.

Lemma goPrev_goNext_inverse_witness :
  PreviewPanel.goPrev true (PreviewPanel.goNext true 7 4) = 4
  /\ PreviewPanel.goNext true 7 (PreviewPanel.goPrev true 4) = 4.
Proof. apply (goPrev_goNext_inverse true 7 4); cbn; lia. Defined.

(* ================================================================= *)
(** ** More on escaping and on the URL filter *)

Section EscapeMore.
Import ExportHelpers.

Lemma replace_char_flat_map c rep (f : Z -> jsstring) s :
  replace_char c rep (flat_map f s)
  = flat_map (fun x => replace_char c rep (f x)) s.
Proof.
  unfold replace_char. induction s as [|x s IH]; [reflexivity|].
  cbn [flat_map]. now rewrite flat_map_app, IH.
Qed.

Lemma escape_one_character x :
  replace_char 39 (lit "&#39;")
    (replace_char 34 (lit "&quot;")
      (replace_char 62 (lit "&gt;")
        (replace_char 60 (lit "&lt;")
          (if x =? 38 then lit "&amp;" else [x]))))
  = entity x.
Proof.
  unfold entity.
  destruct (Z.eqb_spec x 38) as [->|H38]; [reflexivity|].
  destruct (Z.eqb_spec x 60) as [->|H60]; [reflexivity|].
  destruct (Z.eqb_spec x 62) as [->|H62]; [reflexivity|].
  destruct (Z.eqb_spec x 34) as [->|H34]; [reflexivity|].
  destruct (Z.eqb_spec x 39) as [->|H39]; [reflexivity|].
  unfold replace_char. cbn [flat_map app].
  rewrite (proj2 (Z.eqb_neq x 60) H60). cbn [flat_map app].
  rewrite (proj2 (Z.eqb_neq x 62) H62). cbn [flat_map app].
  rewrite (proj2 (Z.eqb_neq x 34) H34). cbn [flat_map app].
  rewrite (proj2 (Z.eqb_neq x 39) H39). reflexivity.
Qed.

Lemma entity_cases c :
  (entity c = [c] /\ c <> 38)
  \/ (exists rest, entity c = 38 :: rest
        /\ In (c, rest)
             [(38, lit "amp;"); (60, lit "lt;"); (62, lit "gt;");
              (34, lit "quot;"); (39, lit "#39;")]).
Proof.
  unfold entity.
  destruct (Z.eqb_spec c 38) as [->|H38];
    [right; eexists; split; [reflexivity|]; cbn; tauto|].
  destruct (Z.eqb_spec c 60) as [->|H60];
    [right; eexists; split; [reflexivity|]; cbn; tauto|].
  destruct (Z.eqb_spec c 62) as [->|H62];
    [right; eexists; split; [reflexivity|]; cbn; tauto|].
  destruct (Z.eqb_spec c 34) as [->|H34];
    [right; eexists; split; [reflexivity|]; cbn; tauto|].
  destruct (Z.eqb_spec c 39) as [->|H39];
    [right; eexists; split; [reflexivity|]; cbn; tauto|].
  now left.
Qed.

Lemma escapeHtml_flat_map (value : jsstring) :
  ExportHelpers.escapeHtml value = flat_map entity value.
Proof.
  unfold ExportHelpers.escapeHtml.
  assert (E : replace_char 38 (lit "&amp;") value
              = flat_map (fun x => if x =? 38 then lit "&amp;" else [x]) value)
    by reflexivity.
  rewrite E, !replace_char_flat_map.
  apply flat_map_ext. intros x. apply escape_one_character.
Qed.

End EscapeMore.

(** X6: [escapeHtml] escapes every character once: the result is the
    texts that stand for the characters of the input, in order. The
    ampersands that the later replacements bring in are not escaped
    again; a text without the five characters is unchanged. *)
Theorem escapeHtml_one_pass (value : jsstring) :
  ExportHelpers.escapeHtml value = flat_map entity value.
Proof. apply escapeHtml_flat_map. Qed.

(** X7: [escapeHtml] loses nothing: two texts with the same escaped form
    are the same text. *)
Theorem escapeHtml_injective (s t : jsstring) :
  ExportHelpers.escapeHtml s = ExportHelpers.escapeHtml t -> s = t.
Proof.
  rewrite !escapeHtml_flat_map. revert t.
  induction s as [|c s IH]; intros [|d t]; cbn [flat_map].
  - reflexivity.
  - destruct (entity_cases d) as [[-> _] | (r & -> & _)]; discriminate.
  - destruct (entity_cases c) as [[-> _] | (r & -> & _)]; discriminate.
  - destruct (entity_cases c) as [[Ec Hc] | (rc & Ec & Hinc)],
             (entity_cases d) as [[Ed Hd] | (rd & Ed & Hind)];
      rewrite Ec, Ed; cbn [app]; intros H.
    + injection H as -> H. f_equal. now apply IH.
    + injection H as -> _. contradiction.
    + injection H as <- _. contradiction.
    + injection H as H.
      cbn [In] in Hinc, Hind.
      repeat match goal with
             | H0 : _ \/ _ |- _ => destruct H0
             | H0 : (_, _) = (_, _) |- _ => injection H0 as <- <-
             | H0 : False |- _ => contradiction
             end;
        cbn [lit map list_ascii_of_string app] in H;
        try discriminate; injection H as H; f_equal; now apply IH.
Qed.

Lemma escapeHtml_injective_witness :
  lit "a<b" = lit "a<b".
Proof. apply escapeHtml_injective. reflexivity. Defined.

(** X8: the URL filter is idempotent: its result passes through it
    unchanged. *)
Theorem markdownUrlTransform_idempotent (url : option jsstring) :
  Markdown.markdownUrlTransform (Some (Markdown.markdownUrlTransform url))
  = Markdown.markdownUrlTransform url.
Proof.
  assert (H : Markdown.markdownUrlTransform url = []
              \/ exists t, Markdown.markdownUrlTransform url = t
                   /\ trim t = t /\ is_empty t = false
                   /\ Markdown.test_anchored Markdown.url_pattern t = true).
  { unfold Markdown.markdownUrlTransform.
    set (t := trim match url with Some u => u | None => [] end).
    destruct (is_empty t) eqn:He; [now left|].
    destruct (Markdown.test_anchored Markdown.url_pattern t) eqn:Hp;
      [|now left].
    right. exists t. repeat split; auto. apply trim_idempotent. }
  destruct H as [-> | (t & -> & Ht & He & Hp)]; [reflexivity|].
  unfold Markdown.markdownUrlTransform. now rewrite Ht, He, Hp.
Qed.

(** X9: the result of the URL filter never begins with [javascript:],
    in whatever case the letters are. *)
Theorem markdownUrlTransform_never_javascript (url : option jsstring) :
  Markdown.begins_ci (Markdown.markdownUrlTransform url) (lit "javascript:")
  = false.
Proof.
  rewrite markdownUrlTransform_prefix_list. cbv zeta.
  set (t := trim match url with Some u => u | None => [] end).
  destruct (negb (is_empty t)
            && existsb (Markdown.begins_ci t) Markdown.allowed_prefixes) eqn:E;
    [|reflexivity].
  apply andb_prop in E as [_ E].
  destruct t as [|c t']; [discriminate|].
  unfold Markdown.begins_ci in *.
  change (lit "javascript:") with (106 :: lit "avascript:").
  cbn [Markdown.strip_ci].
  destruct (Z.eqb_spec (Markdown.canon 106) (Markdown.canon c)) as [Hc|];
    [|reflexivity].
  exfalso. revert E. unfold Markdown.allowed_prefixes.
  cbn [existsb lit map list_ascii_of_string Markdown.strip_ci].
  rewrite <- Hc. cbn. discriminate.
Qed.

(* ================================================================= *)
(** ** More on the editing of a page *)

Section EditMore.
Import EditorPanel.

Lemma is_tight_trim y : trim y <> [] -> is_tight (trim y).
Proof. intros H. repeat split; auto using trim_trimStart, trim_trimEnd. Qed.

Lemma is_tight_trimmed p : is_tight p -> trim p = p.
Proof. intros (_ & Hs & He). unfold trim. now rewrite Hs. Qed.

Lemma is_tight_app a x b : is_tight a -> is_tight b -> is_tight (a ++ x ++ b).
Proof.
  intros (Ha & Hsa & _) (Hb & _ & Heb). repeat split.
  - destruct a; [congruence | discriminate].
  - destruct a as [|c a]; [congruence|].
    cbn [trimStart app] in *. destruct (is_ws c); [|reflexivity].
    pose proof (trimStart_length a) as Hlen. rewrite Hsa in Hlen.
    cbn [length] in Hlen. lia.
  - unfold trimEnd in *. rewrite app_assoc, strip_end_app, Heb.
    destruct b; [congruence | reflexivity].
Qed.

Lemma is_tight_join parts :
  Forall is_tight parts -> parts <> [] -> is_tight (join [NL; NL] parts).
Proof.
  induction 1 as [|p ps Hp Hps IH]; [congruence|]. intros _.
  destruct ps as [|q ps]; [exact Hp|].
  change (join [NL; NL] (p :: q :: ps))
    with (p ++ [NL; NL] ++ join [NL; NL] (q :: ps)).
  apply is_tight_app; [exact Hp | apply IH; discriminate].
Qed.

Lemma kept_pages_tight pages :
  Forall is_tight
    (filter (fun page => negb (is_empty page)) (map trim pages)).
Proof.
  apply Forall_forall. intros p [(y & <- & _)%in_map_iff Hne]%filter_In.
  apply is_tight_trim. destruct (trim y); [discriminate | discriminate].
Qed.

Lemma map_trim_set_page pages i value :
  map trim (set_page pages i (trim value)) = map trim (set_page pages i value).
Proof.
  unfold set_page. destruct (i <? length pages)%nat;
    rewrite !map_app; cbn [map]; now rewrite trim_idempotent.
Qed.

Lemma set_page_same pages i :
  (i < length pages)%nat -> set_page pages i (nth i pages []) = pages.
Proof.
  intros Hi. unfold set_page.
  destruct (Nat.ltb_spec i (length pages)); [|lia]. clear Hi.
  revert i H. induction pages as [|p ps IH]; intros i Hi;
    [cbn [length] in Hi; lia|].
  destruct i as [|i]; [reflexivity|].
  cbn [firstn nth skipn app length] in *. f_equal. apply IH. lia.
Qed.

End EditMore.

(** X10: white space around the text of the edited page is discarded,
    and the content handed back has no white space at either end. *)
Theorem updatePageContent_ignores_outer_space
    (pages : list jsstring) (pageIndex : nat) (value : jsstring) :
  EditorPanel.updatePageContent pages pageIndex (trim value)
  = EditorPanel.updatePageContent pages pageIndex value
  /\ trim (EditorPanel.updatePageContent pages pageIndex value)
     = EditorPanel.updatePageContent pages pageIndex value.
Proof.
  unfold EditorPanel.updatePageContent. split.
  - now rewrite map_trim_set_page.
  - pose proof (kept_pages_tight (EditorPanel.set_page pages pageIndex value))
      as Hall.
    destruct (filter _ (map trim (EditorPanel.set_page pages pageIndex value)))
      as [|p ps] eqn:E; [reflexivity|].
    apply is_tight_trimmed, is_tight_join; [exact Hall | discriminate].
Qed.

(** X11: a page whose text is replaced by white space, or by nothing,
    is removed: the content is the one of the other pages. *)
Theorem updatePageContent_clears_page
    (pages : list jsstring) (pageIndex : nat) (value : jsstring) :
  (pageIndex < length pages)%nat ->
  forallb is_ws value = true ->
  EditorPanel.updatePageContent pages pageIndex value
  = join [NL; NL]
      (filter (fun page => negb (is_empty page))
         (map trim (firstn pageIndex pages ++ skipn (S pageIndex) pages))).
Proof.
  intros Hi Hws. unfold EditorPanel.updatePageContent, EditorPanel.set_page.
  destruct (Nat.ltb_spec pageIndex (length pages)); [|lia].
  rewrite !map_app, !filter_app. cbn [map filter].
  unfold trim at 2. now rewrite trimStart_all_ws.
Qed.

Lemma updatePageContent_clears_page_witness :
  EditorPanel.updatePageContent [lit "a"; lit "b"; lit "c"] 1 (lit "  ")
  = lit "a" ++ [NL; NL] ++ lit "c".
Proof.
  apply (updatePageContent_clears_page [lit "a"; lit "b"; lit "c"] 1 (lit "  "));
    [cbn; lia | reflexivity].
Defined.

(** X12: when no page is empty or has white space at an end, an edit
    that leaves the text of a page as it is gives the pages joined by
    blank lines. *)
Theorem updatePageContent_unchanged_text
    (pages : list jsstring) (pageIndex : nat) :
  Forall is_tight pages ->
  (pageIndex < length pages)%nat ->
  EditorPanel.updatePageContent pages pageIndex (nth pageIndex pages [])
  = join [NL; NL] pages.
Proof.
  intros Hall Hi. unfold EditorPanel.updatePageContent.
  rewrite set_page_same by exact Hi. f_equal. clear Hi.
  induction Hall as [|p ps Hp _ IH]; [reflexivity|].
  cbn [map filter]. rewrite (is_tight_trimmed p Hp).
  destruct Hp as (Hne & _). destruct p; [congruence|].
  cbn [is_empty negb]. f_equal. exact IH.
Qed.

Lemma updatePageContent_unchanged_text_witness :
  EditorPanel.updatePageContent [lit "a b"; lit "c"] 1 (lit "c")
  = lit "a b" ++ [NL; NL] ++ lit "c".
Proof.
  apply (updatePageContent_unchanged_text [lit "a b"; lit "c"] 1).
  - repeat constructor; discriminate.
  - cbn; lia.
Defined.

(* ================================================================= *)
(** ** More on the share-URL codec *)

Section CodecMore.
Import ShareCodec.

Ltac zdm := Z.div_mod_to_equations; lia.

Lemma is_string_cons c s :
  is_string (c :: s) = (0 <=? c) && (c <=? 0xFFFF) && is_string s.
Proof. reflexivity. Qed.

Lemma to_scalar_values_scalar_aux s :
  (is_string s = true -> forallb is_scalar (to_scalar_values s) = true)
  /\ (forall c, is_string (c :: s) = true ->
      forallb is_scalar (to_scalar_values (c :: s)) = true).
Proof.
  induction s as [|d s [IH1 IH2]].
  - split; [reflexivity|]. intros c. rewrite is_string_cons.
    intros [Hc _]%andb_prop. rewrite to_scalar_values_cons.
    destruct (is_high c) eqn:Hh; [reflexivity|].
    destruct (is_low c) eqn:Hl; [reflexivity|].
    cbn [forallb]. rewrite andb_true_r.
    unfold is_scalar, is_high, is_low in *. lia.
  - split; [apply IH2|]. intros c. rewrite is_string_cons.
    intros [Hc Hds]%andb_prop. rewrite to_scalar_values_cons.
    pose proof (IH2 d Hds) as Hd.
    assert (Hs : is_string s = true)
      by (rewrite is_string_cons in Hds; now apply andb_prop in Hds as [_ ?]).
    destruct (is_high c) eqn:Hh.
    + destruct (is_low d) eqn:Hl; cbn [forallb].
      * rewrite (IH1 Hs), andb_true_r.
        unfold is_scalar, is_high, is_low in *. lia.
      * exact Hd.
    + destruct (is_low c) eqn:Hl; cbn [forallb]; [exact Hd|].
      rewrite Hd, andb_true_r.
      unfold is_scalar, is_high, is_low in *. lia.
Qed.

Lemma to_scalar_values_of_string s :
  is_string s = true -> forallb is_scalar (to_scalar_values s) = true.
Proof. intros H. now apply (to_scalar_values_scalar_aux s). Qed.

(** The shape of the encoding of any string, and its decoding up to the
    bytes. *)
Lemma encodeBase64Url_bytes s :
  is_string s = true ->
  exists vs,
    encodeBase64Url s = map to_url_char (map b64_char vs)
    /\ Forall is_sextet vs
    /\ decodeBase64Url (encodeBase64Url s)
       = Some (TextDecoder_decode (TextEncoder_encode s)).
Proof.
  intros Hs.
  assert (Hbs : Forall is_byte (TextEncoder_encode s))
    by (apply utf8_encode_range, to_scalar_values_of_string, Hs).
  destruct (btoa_shape _ Hbs) as (vs & k & Hbtoa & Hvs & Hlen & Hk & _).
  assert (Henc : encodeBase64Url s = to_url (map b64_char vs)).
  { unfold encodeBase64Url. fold (to_url (btoa (TextEncoder_encode s))).
    rewrite Hbtoa, to_url_app, to_url_pad, strip_end_app.
    rewrite (strip_end_all _ (repeat 61 k)).
    - apply strip_end_none. now apply to_url_chars.
    - apply forallb_forall. now intros c ->%repeat_spec. }
  exists vs. split; [now rewrite Henc, to_url_map|]. split; [exact Hvs|].
  rewrite Henc. unfold decodeBase64Url.
  fold (from_url (to_url (map b64_char vs))).
  rewrite (proj2 (to_url_chars vs Hvs)), length_map.
  replace (Z.to_nat ((4 - Z.of_nat (length vs) mod 4) mod 4)) with k by zdm.
  rewrite <- Hbtoa, atob_btoa, map_mod_bytes by assumption.
  reflexivity.
Qed.

Lemma to_url_char_safe v :
  is_sextet v -> is_url_safe (to_url_char (b64_char v)) = true.
Proof.
  unfold is_sextet, b64_char. intros H.
  destruct (Z.ltb_spec v 26); [|destruct (Z.ltb_spec v 52);
    [|destruct (Z.ltb_spec v 62); [|destruct (Z.eqb_spec v 62)]]];
    unfold to_url_char, is_url_safe; cbv zeta.
  - rewrite (proj2 (Z.eqb_neq (65 + v) 43)), (proj2 (Z.eqb_neq (65 + v) 47)) by lia.
    destruct (Z.leb_spec 65 (65 + v)), (Z.leb_spec (65 + v) 90);
      try lia; reflexivity.
  - rewrite (proj2 (Z.eqb_neq (97 + (v - 26)) 43)),
      (proj2 (Z.eqb_neq (97 + (v - 26)) 47)) by lia.
    destruct (Z.leb_spec 97 (97 + (v - 26))), (Z.leb_spec (97 + (v - 26)) 122);
      try lia; cbn [andb]; now rewrite orb_true_r.
  - rewrite (proj2 (Z.eqb_neq (48 + (v - 52)) 43)),
      (proj2 (Z.eqb_neq (48 + (v - 52)) 47)) by lia.
    destruct (Z.leb_spec 48 (48 + (v - 52))), (Z.leb_spec (48 + (v - 52)) 57);
      try lia; cbn [andb]; now rewrite !orb_true_r.
  - reflexivity.
  - reflexivity.
Qed.

Lemma drop_bom_units cp cps :
  is_scalar cp = true ->
  drop_bom (flat_map utf16_units (cp :: cps))
  = if cp =? 0xFEFF then flat_map utf16_units cps
    else flat_map utf16_units (cp :: cps).
Proof.
  rewrite is_scalar_spec. intros H. cbn [flat_map].
  generalize (flat_map utf16_units cps). intros rest. unfold utf16_units.
  destruct (Z.ltb_spec cp 0x10000); cbn [app drop_bom].
  - destruct (cp =? 0xFEFF); reflexivity.
  - destruct (Z.eqb_spec (0xD800 + (cp - 0x10000) / 1024) 0xFEFF) as [E|_];
      [exfalso; zdm|].
    destruct (Z.eqb_spec cp 0xFEFF); [lia | reflexivity].
Qed.

Lemma TextDecoder_decode_scalars cps :
  forallb is_scalar cps = true ->
  TextDecoder_decode (flat_map utf8_bytes cps)
  = drop_bom (flat_map utf16_units cps).
Proof.
  intros Hsc. destruct cps as [|cp cps]; [reflexivity|].
  cbn [forallb] in Hsc. apply andb_prop in Hsc as [Hcp Hcps].
  rewrite (drop_bom_units cp cps Hcp).
  destruct (Z.eqb_spec cp 0xFEFF) as [->|Hne].
  - cbn [flat_map]. change (utf8_bytes 0xFEFF) with [0xEF; 0xBB; 0xBF].
    unfold TextDecoder_decode. cbn [app Z.eqb andb Pos.eqb].
    now rewrite utf8_decode_encode.
  - rewrite TextDecoder_decode_no_bom.
    + rewrite utf8_decode_encode; [reflexivity|].
      cbn [forallb]. now rewrite Hcp, Hcps.
    + cbn [flat_map]. now apply utf8_bytes_not_bom.
Qed.

Lemma from_url_char_cases c :
  (c = 45 /\ from_url_char c = 43) \/ (c = 95 /\ from_url_char c = 47)
  \/ (c <> 45 /\ c <> 95 /\ from_url_char c = c).
Proof.
  unfold from_url_char.
  destruct (Z.eqb_spec c 45) as [->|H45]; [left; now split|].
  destruct (Z.eqb_spec c 95) as [->|H95]; [right; left; now split|].
  right; right. now repeat split.
Qed.

Lemma in_drop_last_eq x s : In x s -> x <> 61 -> In x (drop_last_eq s).
Proof.
  intros Hin Hx. unfold drop_last_eq.
  destruct (rev s) as [|c r] eqn:E; [exact Hin|].
  destruct (Z.eqb_spec c 61) as [->|_]; [|exact Hin].
  apply in_rev in Hin. rewrite E in Hin.
  destruct Hin as [<-|Hin]; [contradiction|]. now apply in_rev in Hin.
Qed.

Lemma sextets_invalid x s :
  In x s -> b64_value x = None -> sextets s = None.
Proof.
  intros Hin Hx. induction s as [|c s IH]; [contradiction|].
  cbn [sextets]. destruct Hin as [->|Hin].
  - now rewrite Hx.
  - rewrite (IH Hin). destruct (b64_value c); reflexivity.
Qed.

Lemma atob_invalid x data :
  In x data -> b64_value x = None -> x <> 61 -> is_ascii_ws x = false ->
  atob data = None.
Proof.
  intros Hin Hv H61 Hws. unfold atob.
  set (d1 := filter (fun c => negb (is_ascii_ws c)) data).
  assert (H1 : In x d1) by (apply filter_In; split; [exact Hin | now rewrite Hws]).
  set (d2 := if Z.of_nat (length d1) mod 4 =? 0
             then drop_last_eq (drop_last_eq d1) else d1).
  assert (H2 : In x d2)
    by (unfold d2; destruct (_ =? 0); auto using in_drop_last_eq).
  destruct (Z.of_nat (length d2) mod 4 =? 1); [reflexivity|].
  now rewrite (sextets_invalid x d2 H2 Hv).
Qed.

End CodecMore.

(** X13: the encoding of any string is safe in a URL: it holds only
    letters, digits, [-] and [_]. *)
Theorem encodeBase64Url_url_safe (value : jsstring) :
  is_string value = true ->
  forallb is_url_safe (ShareCodec.encodeBase64Url value) = true.
Proof.
  intros Hs. destruct (encodeBase64Url_bytes value Hs) as (vs & -> & Hvs & _).
  rewrite map_map. apply forallb_forall.
  intros c (v & <- & Hv)%in_map_iff.
  rewrite Forall_forall in Hvs. now apply to_url_char_safe, Hvs.
Qed.

Lemma encodeBase64Url_url_safe_witness :
  forallb is_url_safe (ShareCodec.encodeBase64Url [0x3F; 0x3E; 0xD800; 0x7E])
  = true.
Proof. apply encodeBase64Url_url_safe. reflexivity. Defined.

(** X14: for any string, decoding the encoding does not throw, and gives
    the string with every unpaired surrogate replaced by U+FFFD and a
    leading U+FEFF dropped. *)
Theorem decodeBase64Url_encodeBase64Url_any (value : jsstring) :
  is_string value = true ->
  ShareCodec.decodeBase64Url (ShareCodec.encodeBase64Url value)
  = Some (drop_bom (replace_unpaired value)).
Proof.
  intros Hs. destruct (encodeBase64Url_bytes value Hs) as (vs & _ & _ & ->).
  unfold ShareCodec.TextEncoder_encode, replace_unpaired.
  now rewrite TextDecoder_decode_scalars
    by now apply to_scalar_values_of_string.
Qed.

Lemma decodeBase64Url_encodeBase64Url_any_witness :
  ShareCodec.decodeBase64Url
    (ShareCodec.encodeBase64Url [0xFEFF; 0x41; 0xDC00; 0xD83D; 0xDE00; 0xD800])
  = Some [0x41; 0xFFFD; 0xD83D; 0xDE00; 0xFFFD].
Proof.
  apply (decodeBase64Url_encodeBase64Url_any
           [0xFEFF; 0x41; 0xDC00; 0xD83D; 0xDE00; 0xD800]).
  reflexivity.
Defined.

(** X15: a text with a character that is of neither base64 alphabet, nor
    [=], nor ASCII white space is refused: the decoding throws. *)
Theorem decodeBase64Url_rejects_invalid (value : jsstring) :
  existsb (fun c => negb (is_base64_input c)) value = true ->
  ShareCodec.decodeBase64Url value = None.
Proof.
  intros (c & Hin & Hc)%existsb_exists. apply negb_true_iff in Hc.
  unfold is_base64_input in Hc.
  destruct (ShareCodec.b64_value (from_url_char c)) eqn:Hv; [discriminate|].
  apply orb_false_elim in Hc as [H61 Hws]. apply Z.eqb_neq in H61.
  unfold ShareCodec.decodeBase64Url.
  fold (from_url value). rewrite from_url_map.
  rewrite (atob_invalid (from_url_char c)); [reflexivity | | exact Hv | |].
  - apply in_or_app. left. now apply in_map.
  - destruct (from_url_char_cases c) as [[_ ->] | [[_ ->] | (_ & _ & ->)]];
      [discriminate | discriminate | exact H61].
  - destruct (from_url_char_cases c) as [[_ ->] | [[_ ->] | (_ & _ & ->)]];
      [reflexivity | reflexivity | exact Hws].
Qed.

Lemma decodeBase64Url_rejects_invalid_witness :
  ShareCodec.decodeBase64Url (lit "aGk%3D") = None.
Proof. apply decodeBase64Url_rejects_invalid. reflexivity. Defined.

(* ================================================================= *)
(** ** The paginator panel *)

Section PanelFacts.
Import PaginatorPanel JsStringMore.

Lemma string_eqb_refl s : string_eqb s s = true.
Proof.
  induction s as [|c s IH]; [reflexivity|].
  cbn [string_eqb]. now rewrite Z.eqb_refl, IH.
Qed.

Lemma line_starts_cons c r l :
  In l (Preflight.line_starts (c :: r)) ->
  l = c :: r \/ In l (Preflight.line_starts r).
Proof.
  cbn [Preflight.line_starts]. intros [<-|Hin]; [now left|]. right.
  destruct (Preflight.is_line_terminator c); [exact Hin|].
  destruct (Preflight.line_starts r); [contradiction | now right].
Qed.

(** The characters of a line are characters of the text. *)
Lemma line_starts_incl s l x :
  In l (Preflight.line_starts s) -> In x l -> In x s.
Proof.
  induction s as [|c r IH]; intros Hl Hx.
  - destruct Hl as [<-|[]]. exact Hx.
  - apply line_starts_cons in Hl as [->|Hl]; [exact Hx|].
    right. now apply IH.
Qed.

Lemma drop_while_shorter p l :
  (length (Preflight.drop_while p l) < length l)%nat ->
  exists c r, l = c :: r /\ p c = true.
Proof.
  destruct l as [|c r]; cbn [Preflight.drop_while length]; [lia|].
  destruct (p c) eqn:Hc; [now exists c, r | cbn [length]; lia].
Qed.

(** A list item begins with a character that is no white space. *)
Lemma list_item_head l :
  list_item_at l = true -> exists c r, l = c :: r /\ is_ws c = false.
Proof.
  unfold list_item_at, Preflight.is_bullet, Preflight.is_numbered.
  intros [H|H]%orb_prop.
  - destruct l as [|c r]; [discriminate|]. exists c, r. split; [reflexivity|].
    apply andb_prop in H as [[->%Z.eqb_eq | ->%Z.eqb_eq]%orb_prop _];
      reflexivity.
  - apply andb_prop in H as [H _]. apply Nat.ltb_lt in H.
    destruct (drop_while_shorter _ _ H) as (c & r & -> & Hc).
    exists c, r. split; [reflexivity|].
    unfold Preflight.is_digit, is_ws in *.
    destruct (Z.leb_spec 48 c), (Z.leb_spec c 57); try discriminate.
    repeat match goal with
           | |- context [?a =? ?b] =>
               destruct (Z.eqb_spec a b); [lia|]
           | |- context [?a <=? ?b] =>
               destruct (Z.leb_spec a b); [try lia|]
           end; reflexivity || lia.
Qed.

End PanelFacts.

(** X16: after a preset is saved, applying by its identifier gives the
    format, the preview flag and the page count that were saved, under
    the name announced, also when an older preset has the same
    identifier; any other identifier gives what it gave before. *)
Theorem applyPresetById_after_save
    (savedPresets : list PaginatorPanel.LayoutPreset) (uuid : jsstring)
    (selectedFormat : PaginatorPanel.layout_format) (fullBook : bool)
    (pageCount : Z) (presetId : jsstring) :
  let '(nextPresets, name) :=
    PaginatorPanel.saveCurrentPreset savedPresets uuid selectedFormat
      fullBook pageCount in
  PaginatorPanel.applyPresetById nextPresets presetId
  = if JsStringMore.string_eqb uuid presetId
    then Some {| PaginatorPanel.preset_id := uuid;
                 PaginatorPanel.preset_name := name;
                 PaginatorPanel.format := selectedFormat;
                 PaginatorPanel.fullBookPreview := fullBook;
                 PaginatorPanel.previewPageCount := pageCount |}
    else PaginatorPanel.applyPresetById savedPresets presetId.
Proof.
  unfold PaginatorPanel.saveCurrentPreset, PaginatorPanel.applyPresetById.
  cbn [find PaginatorPanel.preset_id PaginatorPanel.preset_name].
  destruct (JsStringMore.string_eqb uuid presetId); reflexivity.
Qed.

(** X17: a text with a bullet or a numbered item at the start of a line
    has catalogue items and has document structure, so that neither
    hint is shown for it. *)
Theorem list_item_hides_both_hints (content : jsstring) :
  existsb PaginatorPanel.list_item_at (Preflight.line_starts content) = true ->
  PaginatorPanel.hasCatalogueItems content = true
  /\ PaginatorPanel.hasDocumentStructure content = true.
Proof.
  intros H. split.
  - unfold PaginatorPanel.hasCatalogueItems. now rewrite H, orb_true_r.
  - apply existsb_exists in H as (l & Hl & Hitem).
    unfold PaginatorPanel.hasDocumentStructure. apply andb_true_intro. split.
    + destruct (list_item_head l Hitem) as (c & r & -> & Hc).
      assert (Hin : In c content)
        by (apply (line_starts_incl content (c :: r)); [exact Hl | now left]).
      destruct (trim content) eqn:E; [|reflexivity].
      apply trim_nil_all_ws in E. rewrite forallb_forall in E.
      rewrite (E c Hin) in Hc. discriminate.
    + unfold Preflight.has_structure. apply orb_true_intro. left.
      apply existsb_exists. exists l. split; [exact Hl|].
      unfold PaginatorPanel.list_item_at in Hitem.
      apply orb_prop in Hitem as [-> | ->];
        [now rewrite orb_true_r | now rewrite !orb_true_r].
Qed.

Lemma list_item_hides_both_hints_witness :
  PaginatorPanel.hasCatalogueItems (lit "Items" ++ [NL] ++ lit "12. first")
  = true
  /\ PaginatorPanel.hasDocumentStructure
       (lit "Items" ++ [NL] ++ lit "12. first") = true.
Proof. apply list_item_hides_both_hints. reflexivity. Defined.

(* ================================================================= *)
(** ** Sizes, titles and image pages *)

(** X18: the size label is rounded to the nearest unit. Below 1024 bytes
    it is the number of bytes; below 1 MiB the number of KB shown, from
    1 to 1024, is within one half of [bytes / 1024]; from 1 MiB on the
    tenths of MB shown are within one half of [10 * bytes / 1048576]. *)
Theorem formatBytes_nearest (bytes : Z) :
  0 <= bytes <= 9007199254740991 ->
  exists n,
    (bytes < 1024 /\ n = bytes
     /\ App.formatBytes bytes = JsNumber.to_string n ++ lit " B")
    \/ (1024 <= bytes < 1048576 /\ 1 <= n <= 1024
        /\ Z.abs (2 * (1024 * n - bytes)) <= 1024
        /\ App.formatBytes bytes = JsNumber.to_string n ++ lit " KB")
    \/ (1048576 <= bytes /\ 10 <= n
        /\ Z.abs (2 * (1048576 * n - 10 * bytes)) <= 1048576
        /\ App.formatBytes bytes
           = (JsNumber.to_string (n / 10) ++ lit "."
              ++ JsNumber.to_string (n mod 10)) ++ lit " MB").
Proof.
  intros Hb. unfold App.formatBytes.
  destruct (Z.ltb_spec bytes 1024).
  - exists bytes. left. repeat split; lia.
  - destruct (Z.ltb_spec bytes (1024 * 1024)).
    + exists (JsNumber.round_div bytes 1024). right; left.
      unfold JsNumber.round_div.
      repeat split; try reflexivity; Z.div_mod_to_equations; lia.
    + exists (JsNumber.round_div (10 * bytes) (1024 * 1024)). right; right.
      unfold JsNumber.to_fixed_1, JsNumber.round_div.
      repeat split; try reflexivity; Z.div_mod_to_equations; lia.
Qed.

Lemma formatBytes_nearest_witness :
  exists n,
    (1500000 < 1024 /\ n = 1500000
     /\ App.formatBytes 1500000 = JsNumber.to_string n ++ lit " B")
    \/ (1024 <= 1500000 < 1048576 /\ 1 <= n <= 1024
        /\ Z.abs (2 * (1024 * n - 1500000)) <= 1024
        /\ App.formatBytes 1500000 = JsNumber.to_string n ++ lit " KB")
    \/ (1048576 <= 1500000 /\ 10 <= n
        /\ Z.abs (2 * (1048576 * n - 10 * 1500000)) <= 1048576
        /\ App.formatBytes 1500000
           = (JsNumber.to_string (n / 10) ++ lit "."
              ++ JsNumber.to_string (n mod 10)) ++ lit " MB").
Proof. apply (formatBytes_nearest 1500000). lia. Defined.

Section TitleFacts.

Lemma firstn_tight_start n c r :
  is_ws c = false -> trimStart (firstn (S n) (c :: r)) = firstn (S n) (c :: r).
Proof. intros Hc. cbn [firstn trimStart]. now rewrite Hc. Qed.

Lemma trim_head_not_ws t c r : trim t = c :: r -> is_ws c = false.
Proof.
  intros E. pose proof (trim_trimStart t) as H. rewrite E in H.
  cbn [trimStart] in H. destruct (is_ws c); [|reflexivity].
  pose proof (trimStart_length r) as Hlen. rewrite H in Hlen.
  cbn [length] in Hlen. lia.
Qed.

End TitleFacts.

(** X19: the title of the print preview is never empty, has at most 120
    code units and no white space at its start; it is the default title
    when none is given or the one given is blank. *)
Theorem docTitle_bounds (title : option jsstring) :
  (1 <= length (PrintPreview.docTitle title) <= 120)%nat
  /\ trimStart (PrintPreview.docTitle title) = PrintPreview.docTitle title
  /\ (match title with
      | Some t => if forallb is_ws t
                  then PrintPreview.docTitle title = lit "DocKernel Export"
                  else True
      | None => PrintPreview.docTitle title = lit "DocKernel Export"
      end).
Proof.
  unfold PrintPreview.docTitle, PrintPreview.slice_to.
  destruct title as [t|]; [|repeat split; cbn; lia].
  destruct (trim t) as [|c r] eqn:E; cbn [is_empty negb].
  - rewrite (trim_nil_all_ws t E). repeat split; cbn; lia.
  - pose proof (trim_head_not_ws t c r E) as Hc.
    split; [|split].
    + rewrite length_firstn. cbn [length]. lia.
    + now apply firstn_tight_start.
    + destruct (forallb is_ws t) eqn:Hws; [|exact I].
      unfold trim in E. rewrite trimStart_all_ws in E by exact Hws.
      discriminate.
Qed.

Section ImageFacts.
Import JsStringMore.

Lemma span_fst p s : forallb p (fst (span p s)) = true.
Proof.
  induction s as [|c r IH]; [reflexivity|].
  cbn [span]. destruct (p c) eqn:Hc; [|reflexivity].
  destruct (span p r) as [a b]. cbn [fst forallb] in *. now rewrite Hc, IH.
Qed.

Lemma span_app p a c b :
  forallb p a = true -> p c = false -> span p (a ++ c :: b) = (a, c :: b).
Proof.
  intros Ha Hc. induction a as [|x a IH]; cbn [app span].
  - now rewrite Hc.
  - cbn [forallb] in Ha. apply andb_prop in Ha as [-> Ha].
    now rewrite (IH Ha).
Qed.

Lemma trim_tight_ends c s :
  is_ws c = false -> trim (c :: s ++ [41]) = c :: s ++ [41].
Proof.
  intros Hc. unfold trim. cbn [trimStart]. rewrite Hc.
  unfold trimEnd. change (c :: s ++ [41]) with ((c :: s) ++ [41]).
  now rewrite strip_end_app.
Qed.

End ImageFacts.

(** X20: the address that [parseSingleImageMarkdown] gives is not empty
    and holds no white space and no closing parenthesis. *)
Theorem parseSingleImageMarkdown_address
    (pageMarkdown url : jsstring) :
  PreviewPanel.parseSingleImageMarkdown pageMarkdown = Some url ->
  url <> []
  /\ forallb (fun c => negb ((c =? 41) || is_ws c)) url = true.
Proof.
  unfold PreviewPanel.parseSingleImageMarkdown.
  destruct (is_empty (trim pageMarkdown)); [discriminate|].
  destruct (JsStringMore.strip_prefix (lit "![") (trim pageMarkdown))
    as [r|]; [|discriminate].
  destruct (JsStringMore.strip_prefix (lit "](") _) as [r1|]; [|discriminate].
  pose proof (span_fst (fun c => negb ((c =? 41) || is_ws c)) r1) as Hall.
  destruct (JsStringMore.span (fun c => negb ((c =? 41) || is_ws c)) r1)
    as [u r2].
  cbn [fst] in Hall.
  destruct (is_empty u) eqn:He; [discriminate|].
  assert (Hgoal : u <> []
            /\ forallb (fun c => negb ((c =? 41) || is_ws c)) u = true)
    by (split; [now destruct u | exact Hall]).
  destruct (JsStringMore.string_eqb r2 (lit ")"));
    [now intros [= <-]|].
  destruct (JsStringMore.span is_ws r2) as [spaces r3].
  destruct (is_empty spaces); [discriminate|].
  destruct (JsStringMore.strip_prefix [34] r3) as [r4|]; [|discriminate].
  destruct (JsStringMore.strip_prefix [34] _) as [r5|]; [|discriminate].
  destruct (JsStringMore.string_eqb r5 (lit ")")); [|discriminate].
  now intros [= <-].
Qed.

Lemma parseSingleImageMarkdown_address_witness :
  lit "blob:x/y" <> []
  /\ forallb (fun c => negb ((c =? 41) || is_ws c)) (lit "blob:x/y") = true.
Proof.
  apply (parseSingleImageMarkdown_address (lit " ![a b](blob:x/y) ")).
  reflexivity.
Defined.

(** X21: a page that is one image, written [![alt](address)] with no
    []] in the alternative text and an address that is not empty and
    holds no white space and no [)], is recognised, with its address. *)
Theorem parseSingleImageMarkdown_image (alt url : jsstring) :
  forallb (fun c => negb (c =? 93)) alt = true ->
  url <> [] ->
  forallb (fun c => negb ((c =? 41) || is_ws c)) url = true ->
  PreviewPanel.parseSingleImageMarkdown
    (lit "![" ++ alt ++ lit "](" ++ url ++ lit ")")
  = Some url.
Proof.
  intros Halt Hne Hurl. unfold PreviewPanel.parseSingleImageMarkdown.
  change (lit "![") with [33; 91]. change (lit "](") with [93; 40].
  change (lit ")") with [41].
  assert (E : [33; 91] ++ alt ++ [93; 40] ++ url ++ [41]
              = 33 :: (91 :: alt ++ [93; 40] ++ url) ++ [41]).
  { cbn [app]. do 2 f_equal. now rewrite <- !app_assoc. }
  rewrite E, trim_tight_ends by reflexivity. rewrite <- E.
  cbn [app is_empty JsStringMore.strip_prefix Z.eqb Pos.eqb].
  rewrite (span_app _ alt 93 (40 :: url ++ [41]) Halt eq_refl).
  cbn [snd JsStringMore.strip_prefix Z.eqb Pos.eqb].
  rewrite (span_app _ url 41 [] Hurl eq_refl).
  destruct url; [congruence | reflexivity].
Qed.

Lemma parseSingleImageMarkdown_image_witness :
  PreviewPanel.parseSingleImageMarkdown
    (lit "![" ++ lit "cover.png" ++ lit "](" ++ lit "blob:http://h/1" ++ lit ")")
  = Some (lit "blob:http://h/1").
Proof.
  apply (parseSingleImageMarkdown_image (lit "cover.png") (lit "blob:http://h/1"));
    [reflexivity | discriminate | reflexivity].
Defined.
